(** * PartyViz: audio pipeline and rotation controller

    A shallow embedding of [audio-manager.js], of the loader [index.js]
    (rotation controller) and of the template animation module, with the
    properties of the audio/rotation specification stated over it.

    Conventions.
    - A JS number that the program only ever uses as a real quantity is a
      rational [Q]; an integer quantity (bin index, seconds, milliseconds,
      delivered band value) is a [Z].
    - [null]/[undefined] is [None].
    - A handle returned by [requestAnimationFrame], [setTimeout] or
      [getUserMedia] is a [positive]: browsers hand out non-zero handles, so
      a handle is always truthy.
    - A JS exception is the [Thrown]/[Exn] branch of an explicit result. *)

From Stdlib Require Import ZArith QArith Qround Qminmax Lia Lqa.
From stdpp Require Import base option list.

Open Scope Z_scope.

(** ** The module lifecycle contract (interface of every animation class) *)

(** What a call of a hook does: it returns, or it throws; in both cases
    the instance may have been mutated. *)
Inductive outcome (M : Type) : Type :=
  | Returned (m : M)
  | Thrown (m : M).
Arguments Returned {M} m.
Arguments Thrown {M} m.

Definition after {M} (o : outcome M) : M :=
  match o with Returned m => m | Thrown m => m end.

Definition returned {M} (o : outcome M) : bool :=
  match o with Returned _ => true | Thrown _ => false end.

(** An animation class.  A hook is [None] on an instance when
    [typeof instance.hook !== 'function']. *)
Class Animation (M : Type) : Type := {
  start : M -> option (outcome M);
  stop : M -> option (outcome M);
  updateFrequencies : Z -> Z -> Z -> M -> option (outcome M);
  (** the instance has a recurring draw callback registered *)
  running : M -> bool
}.

(** A class that honours the contract: [start] and [stop] are there, do
    not throw, and leave the instance running, respectively stopped. *)
Class Lawful (M : Type) `{Animation M} : Prop := {
  start_runs : forall m : M,
    exists m', start m = Some (Returned m') /\ running m' = true;
  stop_halts : forall m : M,
    exists m', stop m = Some (Returned m') /\ running m' = false
}.

(** ** audio-manager.js *)
Module AudioManager.

(** [array[i]]: [undefined] for a hole, a negative index or an index past
    the end. *)
Definition js_index {A} (array : list (option A)) (i : Z) : option A :=
  if i <? 0 then None else mjoin (array !! Z.to_nat i).

(** The [for (let i = start; i < end; i++)] loop of [getAverageVolume];
    [n] is the number of iterations left, [end - i]. *)
Fixpoint average_loop (array : list (option Z)) (n : nat) (i : Z)
    (values count : Z) : Z * Z :=
  match n with
  | O => (values, count)
  | S n' =>
      match js_index array i with
      | Some v => average_loop array n' (i + 1) (values + v) (count + 1)
      | None => average_loop array n' (i + 1) values count
      end
  end.

Definition getAverageVolume (array : list (option Z)) (start_ end_ : Z) : Q :=
  let '(values, count) :=
    average_loop array (Z.to_nat (end_ - start_)) start_ 0 0 in
  if count =? 0 then 0%Q else (inject_Z values / inject_Z count)%Q.

(** The words of the specification: the arithmetic mean of the defined
    entries of the range, and 0 when there is none. *)
Definition defined_entries (array : list (option Z)) (start_ end_ : Z) : list Z :=
  omap (js_index array) (seqZ start_ (end_ - start_)).

Definition Zsum (l : list Z) : Z := foldr Z.add 0 l.

Definition mean (l : list Z) : Q :=
  match l with
  | [] => 0%Q
  | _ :: _ => (inject_Z (Zsum l) / inject_Z (Z.of_nat (length l)))%Q
  end.

(** [Math.min(100, Math.max(0, v))] *)
Definition clamp (v : Q) : Q := Qmin 100 (Qmax 0 v).

(** Lines 124-130 of [startLoop]: clamp, then [Math.floor] on delivery. *)
Definition deliver (low mid high : Q) : Z * Z * Z :=
  let low := clamp low in
  let mid := clamp mid in
  let high := clamp high in
  (Qfloor low, Qfloor mid, Qfloor high).



(** A band value as the modules expect it. *)
Definition in_bounds (v : Z) : Prop := 0 <= v <= 100.

Definition bassRange : Z * Z := (0, 10).
Definition midRange : Z * Z := (11, 100).
Definition highRange : Z * Z := (101, 500).

(** The live branch: band averages scaled from 0..255 to 0..100, the high
    band boosted by 1.2 (the rational 6/5 here). *)
Definition live_bands (dataArray : list Z) : Q * Q * Q :=
  let arr := Some <$> dataArray in
  let bassAvg := getAverageVolume arr (fst bassRange) (snd bassRange) in
  let midAvg := getAverageVolume arr (fst midRange) (snd midRange) in
  let highAvg := getAverageVolume arr (fst highRange) (snd highRange) in
  ((bassAvg / 255) * 100, (midAvg / 255) * 100, (highAvg / 255) * 100 * (12 # 10))%Q.

(** The synthetic branch: three draws of [Math.random()], each times 100. *)
Definition synthetic_bands (rnd : Q * Q * Q) : Q * Q * Q :=
  let '(r1, r2, r3) := rnd in ((r1 * 100)%Q, (r2 * 100)%Q, (r3 * 100)%Q).

Inductive ctx_state := ctx_running | ctx_suspended.

(** The manager object. *)
Record t : Type := mk {
  audioCtx : option ctx_state;      (* the context, with its analyser *)
  source : option positive;         (* source node made from that stream *)
  stream : option positive;
  dataArray : list Z;
  isLive : bool;
  isTestMode : bool;
  rafId : option positive
}.

(** The part of the browser the manager talks to. *)
Record browser : Type := mk_browser {
  held : list positive;             (* streams whose tracks are live: the
                                       capture handles held on a device *)
  next_stream : positive;
  connected : list positive;        (* sources connected to the analyser *)
  raf_queue : list positive;        (* registered callbacks of [loop] *)
  next_raf : positive;
  ticks : nat                       (* how many times [loop] has run *)
}.

Definition world : Type := t * browser.

Definition create : t :=
  {| audioCtx := None; source := None; stream := None; dataArray := [];
     isLive := false; isTestMode := true; rafId := None |}.

Definition fresh_browser : browser :=
  {| held := []; next_stream := 1%positive; connected := [];
     raf_queue := []; next_raf := 1%positive; ticks := 0 |}.

Definition with_audioCtx (v : option ctx_state) (a : t) : t :=
  mk v (source a) (stream a) (dataArray a) (isLive a) (isTestMode a) (rafId a).
Definition with_source (v : option positive) (a : t) : t :=
  mk (audioCtx a) v (stream a) (dataArray a) (isLive a) (isTestMode a) (rafId a).
Definition with_stream (v : option positive) (a : t) : t :=
  mk (audioCtx a) (source a) v (dataArray a) (isLive a) (isTestMode a) (rafId a).
Definition with_dataArray (v : list Z) (a : t) : t :=
  mk (audioCtx a) (source a) (stream a) v (isLive a) (isTestMode a) (rafId a).
Definition with_isLive (v : bool) (a : t) : t :=
  mk (audioCtx a) (source a) (stream a) (dataArray a) v (isTestMode a) (rafId a).
Definition with_isTestMode (v : bool) (a : t) : t :=
  mk (audioCtx a) (source a) (stream a) (dataArray a) (isLive a) v (rafId a).
Definition with_rafId (v : option positive) (a : t) : t :=
  mk (audioCtx a) (source a) (stream a) (dataArray a) (isLive a) (isTestMode a) v.

Definition with_held (v : list positive) (b : browser) : browser :=
  mk_browser v (next_stream b) (connected b) (raf_queue b) (next_raf b) (ticks b).
Definition with_connected (v : list positive) (b : browser) : browser :=
  mk_browser (held b) (next_stream b) v (raf_queue b) (next_raf b) (ticks b).
Definition with_raf_queue (v : list positive) (b : browser) : browser :=
  mk_browser (held b) (next_stream b) (connected b) v (next_raf b) (ticks b).

Definition remove (h : positive) (l : list positive) : list positive :=
  filter (fun x => x <> h) l.

(** [setTestMode(enabled)]: only the context is suspended or resumed. *)
Definition setTestMode (enabled : bool) (a : t) : t :=
  let a := with_isTestMode enabled a in
  match audioCtx a with
  | Some st =>
      match enabled, st with
      | true, ctx_running => with_audioCtx (Some ctx_suspended) a
      | false, ctx_suspended => with_audioCtx (Some ctx_running) a
      | _, _ => a
      end
  | None => a
  end.

(** [new Uint8Array(analyser.frequencyBinCount)], half of the FFT size *)
Definition new_dataArray : list Z := replicate 1024 0.
#[global] Arguments new_dataArray : simpl never.

(** [enableLiveInput], up to the [await]: steps 1 and 2, then the request
    for a device is pending. *)
Definition enableLiveInput_request (w : world) : world :=
  let '(a, b) := w in
  (* 1. Setup Audio Context if missing *)
  let a := match audioCtx a with
           | None => with_dataArray new_dataArray
                       (with_audioCtx (Some ctx_running) a)
           | Some _ => a
           end in
  (* 2. Stop existing stream if switching devices *)
  let b := match stream a with
           | Some st => with_held (remove st (held b)) b
           | None => b
           end in
  let b := match source a with
           | Some src => with_connected (remove src (connected b)) b
           | None => b
           end in
  (a, b).

(** [enableLiveInput] from the point where [getUserMedia] settles:
    [granted] is the answer of the browser (user, device).  The result is
    the returned boolean. *)
Definition enableLiveInput_settle (granted : bool) (w : world) : bool * world :=
  let '(a, b) := w in
  if granted then
    (* 4. Get Stream *)
    let st := next_stream b in
    let b := mk_browser (st :: held b) (Pos.succ st) (connected b)
               (raf_queue b) (next_raf b) (ticks b) in
    let a := with_stream (Some st) a in
    (* 5. Connect Source -> Analyser *)
    let a := with_source (Some st) a in
    let b := with_connected (st :: connected b) b in
    let a := with_isTestMode false (with_isLive true a) in
    let a := match audioCtx a with
             | Some ctx_suspended => with_audioCtx (Some ctx_running) a
             | _ => a
             end in
    (true, (a, b))
  else
    (* catch (err) *)
    (false, (a, b)).

(** A call that runs to completion before anything else happens. *)
Definition enableLiveInput (granted : bool) (w : world) : bool * world :=
  enableLiveInput_settle granted (enableLiveInput_request w).

(** What one animation frame brings from outside: the three draws of
    [Math.random()] and the analyser's byte spectrum. *)
Record frame_input : Type := mk_input {
  rnd : Q * Q * Q;
  spectrum : list Z
}.

Section Loop.
Context {M : Type} `{Animation M}.

(** The body of [loop] in [startLoop].  [cur] is
    [window.currentAnimation].  The boolean tells whether the callback
    returned (true) or an exception left it (false); the triple is what
    was passed to [updateFrequencies], if it was called. *)
Definition loop (inp : frame_input) (w : world) (cur : option M)
    : bool * option (Z * Z * Z) * world * option M :=
  let '(a, b) := w in
  (* this.rafId = requestAnimationFrame(loop) *)
  let h := next_raf b in
  let b := mk_browser (held b) (next_stream b) (connected b)
             (raf_queue b ++ [h]) (Pos.succ h) (S (ticks b)) in
  let a := with_rafId (Some h) a in
  let '(a, bands) :=
    if isTestMode a || negb (isLive a)
    then (a, synthetic_bands (rnd inp))
    else let a := with_dataArray (spectrum inp) a in
         (a, live_bands (dataArray a)) in
  let '(low, mid, high) := bands in
  let '(l, m, hi) := deliver low mid high in
  match cur with
  | Some anim =>
      match updateFrequencies l m hi anim with
      | Some (Returned anim') => (true, Some (l, m, hi), (a, b), Some anim')
      | Some (Thrown anim') => (false, Some (l, m, hi), (a, b), Some anim')
      | None => (true, None, (a, b), cur)
      end
  | None => (true, None, (a, b), None)
  end.

(** [startLoop()]: the first call of [loop] is a direct one. *)
Definition startLoop (inp : frame_input) (w : world) (cur : option M)
    : bool * world * option M :=
  let '(ok, _, w, cur) := loop inp w cur in (ok, w, cur).

(** One animation frame of the browser: every callback registered
    before the frame runs once; an exception leaving a callback is
    reported and the others still run. *)
Definition frame (inp : frame_input) (w : world) (cur : option M)
    : world * option M :=
  let '(a, b) := w in
  foldl (fun st _ => let '(_, _, w', cur') := loop inp (fst st) (snd st) in (w', cur'))
        ((a, with_raf_queue [] b), cur) (raf_queue b).

(** What can happen to the manager, in any order. *)
Inductive event : Type :=
  | Frame (inp : frame_input) (cur : option M)
  | SetTestMode (enabled : bool)
  | EnableLiveInput (granted : bool).

Definition step (w : world) (e : event) : world :=
  match e with
  | Frame inp cur => fst (frame inp w cur)
  | SetTestMode enabled => (setTestMode enabled (fst w), snd w)
  | EnableLiveInput granted => snd (enableLiveInput granted w)
  end.

Definition run (es : list event) (w : world) : world := foldl step w es.

Definition is_frame (e : event) : bool :=
  match e with Frame _ _ => true | _ => false end.

(** How many animation frames a sequence of events holds. *)
Definition frames (es : list event) : nat :=
  length (filter (fun e => is_frame e = true) es).
End Loop.

(** The loop is armed: exactly its latest registration is pending. *)
Definition armed (w : world) : Prop :=
  exists h, rafId w.1 = Some h /\ raf_queue w.2 = [h].

(** No capture handle is held but that of [this.stream]. *)
Definition one_handle (w : world) : Prop :=
  held w.2 = [] \/ exists st, stream w.1 = Some st /\ held w.2 = [st].

(** The analyser can be read: there is a context and it is not suspended
    unless test mode is on; a live manager has its context and a stream. *)
Definition ctx_inv (a : t) : Prop :=
  (isLive a = true -> is_Some (audioCtx a) /\ is_Some (stream a))
  /\ (isTestMode a = false -> audioCtx a <> Some ctx_suspended).

(** At most the source [this.source] names feeds the analyser. *)
Definition one_source (w : world) : Prop :=
  connected w.2 = [] \/ exists src, source w.1 = Some src /\ connected w.2 = [src].

(** The page as [init] finds it, and the same after the microphone was
    enabled once with success. *)
Definition fresh : world := (create, fresh_browser).
Definition live : world := (enableLiveInput true fresh).2.

(** The outcome of a second request, for another device, that is refused. *)
Definition refused : bool * world := enableLiveInput false live.

(** A frame whose random draws are all 1/2 and whose spectrum is silent. *)
Definition quiet_frame : frame_input :=
  mk_input ((1 # 2)%Q, (1 # 2)%Q, (1 # 2)%Q) (replicate 1024 0).

End AudioManager.

(** ** animations/template/template-animation.js *)
Module TemplateAnimation.

(** The instance, with the canvas layout it sees and the callbacks it has
    registered with [requestAnimationFrame]. *)
Record t : Type := mk {
  frameId : option positive;
  LOW : Z;
  MID : Z;
  HIGH : Z;
  width : Z;
  height : Z;
  initialized : bool;
  (* browser side *)
  rect : Z * Z;                 (* floor of the canvas' bounding rectangle *)
  callbacks : list positive;    (* registered [drawFrame] callbacks *)
  next_handle : positive
}.

Definition with_frameId (v : option positive) (a : t) : t :=
  mk v (LOW a) (MID a) (HIGH a) (width a) (height a) (initialized a)
     (rect a) (callbacks a) (next_handle a).

Definition resize (a : t) : t :=
  let '(rectW, rectH) := rect a in
  if (rectW <=? 2) || (rectH <=? 2) then a
  else
    let w := Z.max 1 rectW in
    let h := Z.max 1 rectH in
    let init := if negb (initialized a) && (40 <? w) && (40 <? h)
                then true else initialized a in
    mk (frameId a) (LOW a) (MID a) (HIGH a) w h init
       (rect a) (callbacks a) (next_handle a).

(** [this.frameId = requestAnimationFrame(this.drawFrame)] *)
Definition request_frame (a : t) : t :=
  let h := next_handle a in
  mk (Some h) (LOW a) (MID a) (HIGH a) (width a) (height a) (initialized a)
     (rect a) (callbacks a ++ [h]) (Pos.succ h).

(** [cancelAnimationFrame(h)] *)
Definition cancel_frame (h : positive) (a : t) : t :=
  mk (frameId a) (LOW a) (MID a) (HIGH a) (width a) (height a) (initialized a)
     (rect a) (filter (fun x => x <> h) (callbacks a)) (next_handle a).

(** [new TemplateAnimation(canvas, config)] on a canvas laid out as [r]. *)
Definition create (r : Z * Z) : t :=
  resize (mk None 0 0 0 0 0 false r [] 1%positive).

Definition updateFrequencies (low mid high : Z) (a : t) : t :=
  mk (frameId a) low mid high (width a) (height a) (initialized a)
     (rect a) (callbacks a) (next_handle a).

(** The body of [drawFrame]; drawing itself changes nothing here. *)
Definition drawFrame (a : t) : t :=
  if negb (initialized a) then request_frame (resize a)
  else request_frame a.

Definition start (a : t) : t :=
  match frameId a with
  | None => request_frame (resize a)
  | Some _ => a
  end.

Definition stop (a : t) : t :=
  match frameId a with
  | Some h => with_frameId None (cancel_frame h a)
  | None => a
  end.

(** One animation frame of the browser: the callbacks registered before
    the frame are taken off the list and each runs [drawFrame]. *)
Definition animation_frame (a : t) : t :=
  let due := callbacks a in
  foldl (fun a _ => drawFrame a)
    (mk (frameId a) (LOW a) (MID a) (HIGH a) (width a) (height a)
        (initialized a) (rect a) [] (next_handle a)) due.

(** The registered callbacks are exactly the one [frameId] names. *)
Definition consistent (a : t) : Prop :=
  callbacks a = match frameId a with Some h => [h] | None => [] end.

(** The window's [resize] listener installed by the constructor. *)
Definition on_resize (a : t) : t :=
  let a := resize a in
  if negb (initialized a) && (40 <? width a) && (40 <? height a)
  then mk (frameId a) (LOW a) (MID a) (HIGH a) (width a) (height a) true
          (rect a) (callbacks a) (next_handle a)
  else a.

(** What can happen to an instance: the loader's three calls, a frame of
    the browser, a window resize, and the page laying the canvas out
    anew. *)
Inductive op : Type :=
  | Start
  | Stop
  | Update (low mid high : Z)
  | AnimationFrame
  | WindowResize
  | Layout (r : Z * Z).

Definition apply (a : t) (o : op) : t :=
  match o with
  | Start => start a
  | Stop => stop a
  | Update low mid high => updateFrequencies low mid high a
  | AnimationFrame => animation_frame a
  | WindowResize => on_resize a
  | Layout r =>
      mk (frameId a) (LOW a) (MID a) (HIGH a) (width a) (height a)
         (initialized a) r (callbacks a) (next_handle a)
  end.

Definition run (ops : list op) (a : t) : t := foldl apply a ops.

(** The band values the next drawing reads. *)
Definition bands (a : t) : Z * Z * Z := (LOW a, MID a, HIGH a).

End TemplateAnimation.

(** The template class implements the contract; none of its hooks throws. *)
#[export] Instance template_animation : Animation TemplateAnimation.t := {
  start a := Some (Returned (TemplateAnimation.start a));
  stop a := Some (Returned (TemplateAnimation.stop a));
  updateFrequencies l m h a :=
    Some (Returned (TemplateAnimation.updateFrequencies l m h a));
  running a := bool_decide (is_Some (TemplateAnimation.frameId a))
}.

(** [stop] of a template instance the way the loader calls it, through
    the interface. *)
Abbreviation stop_hook := (stop (M:=TemplateAnimation.t)).

(** A module whose hooks can be made to throw or to be missing: what the
    loader may be handed by a manifest entry. *)
Module Scripted.
Inductive hook := works | throws | missing.

Record t : Type := mk {
  on_start : hook;
  on_stop : hook;
  on_update : hook;
  active : bool;
  received : list (Z * Z * Z)
}.

Definition call (h : hook) (a a' : t) : option (outcome t) :=
  match h with
  | works => Some (Returned a')
  | throws => Some (Thrown a)
  | missing => None
  end.
End Scripted.

(** Scripted modules: one that honours the contract, one whose
    [updateFrequencies] throws, one whose [stop] throws. *)
Definition sound : Scripted.t :=
  Scripted.mk Scripted.works Scripted.works Scripted.works false [].
Definition bad_update : Scripted.t :=
  Scripted.mk Scripted.works Scripted.works Scripted.throws false [].
Definition bad_stop : Scripted.t :=
  Scripted.mk Scripted.works Scripted.throws Scripted.works false [].

#[export] Instance scripted_animation : Animation Scripted.t := {
  start a :=
    Scripted.call (Scripted.on_start a) a
      (Scripted.mk (Scripted.on_start a) (Scripted.on_stop a)
         (Scripted.on_update a) true (Scripted.received a));
  stop a :=
    Scripted.call (Scripted.on_stop a) a
      (Scripted.mk (Scripted.on_start a) (Scripted.on_stop a)
         (Scripted.on_update a) false (Scripted.received a));
  updateFrequencies l m h a :=
    Scripted.call (Scripted.on_update a) a
      (Scripted.mk (Scripted.on_start a) (Scripted.on_stop a)
         (Scripted.on_update a) (Scripted.active a)
         ((l, m, h) :: Scripted.received a));
  running a := Scripted.active a
}.

(** ** index.js: the loader and rotation controller *)
Module Loader.

Definition DEFAULT_DURATION : Z := 8.

(** The manifest entry of an animation; only [duration] (seconds) is read
    by the rotation. *)
Record config : Type := mk_config { duration : option Z }.

(** A pending [setTimeout(() => rotateNext(1), delay)]. *)
Record timer : Type := mk_timer { handle : positive; delay : Z; due : Z }.

Inductive result (A : Type) : Type :=
  | Ok (a : A)
  | Exn.
Arguments Ok {A} a.
Arguments Exn {A}.

Section WithAnimation.
Context {M : Type} `{Animation M}.

(** An element of [loaded]: [{ slug, view, instance, config }].  The
    view is always present; [display] is [view.style.display], true for
    ['block'] and false for ['none']. *)
Record item : Type := mk_item {
  display : bool;
  instance : option M;
  cfg : config
}.

(** The variables of [init], [window.currentAnimation], and the
    browser's timers and clock.  [currentItem] is a reference to an
    element of [loaded]: its position. *)
Record state : Type := mk {
  loaded : list item;
  currentIndex : Z;
  currentItem : option nat;
  rotationTimer : option positive;
  paused : bool;
  currentAnimation : option nat;
  (* browser side *)
  timers : list timer;
  next_timer : positive;
  now : Z;                      (* milliseconds *)
  shown : list Z                (* arguments of the [showIndex] calls so
                                   far, latest first *)
}.

Definition with_loaded (v : list item) (s : state) : state :=
  mk v (currentIndex s) (currentItem s) (rotationTimer s) (paused s)
     (currentAnimation s) (timers s) (next_timer s) (now s) (shown s).
Definition with_rotationTimer (v : option positive) (s : state) : state :=
  mk (loaded s) (currentIndex s) (currentItem s) v (paused s)
     (currentAnimation s) (timers s) (next_timer s) (now s) (shown s).
Definition with_paused (v : bool) (s : state) : state :=
  mk (loaded s) (currentIndex s) (currentItem s) (rotationTimer s) v
     (currentAnimation s) (timers s) (next_timer s) (now s) (shown s).
Definition with_timers (v : list timer) (s : state) : state :=
  mk (loaded s) (currentIndex s) (currentItem s) (rotationTimer s) (paused s)
     (currentAnimation s) v (next_timer s) (now s) (shown s).
Definition with_now (v : Z) (s : state) : state :=
  mk (loaded s) (currentIndex s) (currentItem s) (rotationTimer s) (paused s)
     (currentAnimation s) (timers s) (next_timer s) v (shown s).
Definition with_shown (v : list Z) (s : state) : state :=
  mk (loaded s) (currentIndex s) (currentItem s) (rotationTimer s) (paused s)
     (currentAnimation s) (timers s) (next_timer s) (now s) v.

(** Code that reads and writes the state and may throw. *)
Definition js (A : Type) : Type := state -> result A * state.

#[local] Instance js_ret : MRet js := fun A a s => (Ok a, s).
#[local] Instance js_bind : MBind js := fun A B f m s =>
  match m s with
  | (Ok a, s') => f a s'
  | (Exn, s') => (Exn, s')
  end.

Definition get : js state := fun s => (Ok s, s).
Definition modify (f : state -> state) : js unit := fun s => (Ok tt, f s).

(** [loaded[i]] for a JS number [i] *)
Definition lookupZ (l : list item) (i : Z) : option item :=
  if i <? 0 then None else l !! Z.to_nat i.

Definition set_instance (i : nat) (m : M) (s : state) : state :=
  with_loaded
    (alter (fun it => mk_item (display it) (Some m) (cfg it)) i (loaded s)) s.

(** [if (item.instance && typeof item.instance.hook === 'function')
    item.instance.hook();] on the element at position [i] *)
Definition call_hook (hook : M -> option (outcome M)) (i : nat) : js unit :=
  fun s =>
    match loaded s !! i with
    | Some it =>
        match instance it with
        | Some m =>
            match hook m with
            | Some (Returned m') => (Ok tt, set_instance i m' s)
            | Some (Thrown m') => (Exn, set_instance i m' s)
            | None => (Ok tt, s)
            end
        | None => (Ok tt, s)
        end
    | None => (Ok tt, s)
    end.

Definition hideAll (s : state) : state :=
  with_loaded
    ((fun it => mk_item false (instance it) (cfg it)) <$> loaded s) s.

Definition show_view (i : nat) (s : state) : state :=
  with_loaded
    (alter (fun it => mk_item true (instance it) (cfg it)) i (loaded s)) s.

(** The three assignments that end [showIndex]. *)
Definition set_current (i : nat) (index : Z) (s : state) : state :=
  mk (loaded s) index (Some i) (rotationTimer s) (paused s)
     (it ← loaded s !! i; _ ← instance it; Some i)
     (timers s) (next_timer s) (now s) (shown s).

Definition showIndex (index : Z) : js unit :=
  modify (fun s => with_shown (index :: shown s) s);;
  s ← get;
  match currentItem s with
  | Some c => call_hook stop c
  | None => mret tt
  end;;
  modify hideAll;;
  s ← get;
  match lookupZ (loaded s) index with
  | None => mret tt
  | Some _ =>
      let i := Z.to_nat index in
      modify (show_view i);;
      call_hook start i;;
      modify (set_current i index)
  end.

(** [(item && item.config && item.config.duration) || DEFAULT_DURATION] *)
Definition duration_of (it : option item) : Z :=
  match it with
  | Some it =>
      match duration (cfg it) with
      | Some d => if d =? 0 then DEFAULT_DURATION else d
      | None => DEFAULT_DURATION
      end
  | None => DEFAULT_DURATION
  end.

Definition clearTimeout (h : option positive) (s : state) : state :=
  match h with
  | Some h => with_timers (filter (fun t => handle t <> h) (timers s)) s
  | None => s
  end.

Definition setTimeout (ms : Z) : js positive := fun s =>
  let h := next_timer s in
  (Ok h,
   mk (loaded s) (currentIndex s) (currentItem s) (rotationTimer s)
      (paused s) (currentAnimation s)
      (timers s ++ [mk_timer h ms (now s + Z.max 0 ms)])
      (Pos.succ h) (now s) (shown s)).

Definition rotateNext (step : Z) : js unit :=
  s ← get;
  let len := Z.of_nat (length (loaded s)) in
  let next := Z.rem (currentIndex s + step + len) len in
  showIndex next;;
  s ← get;
  let d := duration_of (lookupZ (loaded s) next) in
  modify (clearTimeout (rotationTimer s));;
  if paused s then mret tt
  else h ← setTimeout (d * 1000); modify (with_rotationTimer (Some h)).

Definition on_prev : js unit :=
  modify (with_paused false);; rotateNext (-1).

Definition on_next : js unit :=
  modify (with_paused false);; rotateNext 1.

Definition on_pause : js unit :=
  modify (fun s => with_paused (negb (paused s)) s);;
  s ← get;
  if paused s then
    modify (clearTimeout (rotationTimer s));;
    modify (with_rotationTimer None)
  else
    let nextIndex := Z.rem (currentIndex s + 1) (Z.of_nat (length (loaded s))) in
    let d := duration_of (lookupZ (loaded s) nextIndex) in
    modify (clearTimeout (rotationTimer s));;
    h ← setTimeout (d * 1000);
    modify (with_rotationTimer (Some h)).

(** The browser runs the callback of timer [h]: only a pending timer
    whose time has come can run, and it is no longer pending then. *)
Definition on_timer (h : positive) : js unit :=
  s ← get;
  if bool_decide (Exists (fun t => handle t = h /\ due t <= now s) (timers s))
  then modify (clearTimeout (Some h));; rotateNext 1
  else mret tt.

Inductive event : Type :=
  | ClickPrev
  | ClickNext
  | ClickPause
  | CallRotateNext (step : Z)     (* [window.rotateNext(step)] *)
  | CallShowIndex (index : Z)
  | Wait (ms : Z)
  | TimerFires (h : positive).

Definition handler (e : event) : js unit :=
  match e with
  | ClickPrev => on_prev
  | ClickNext => on_next
  | ClickPause => on_pause
  | CallRotateNext step => rotateNext step
  | CallShowIndex index => showIndex index
  | Wait ms => modify (fun s => with_now (now s + Z.max 0 ms) s)
  | TimerFires h => on_timer h
  end.

(** An exception that leaves a handler is reported by the browser; the
    state stays as the handler left it. *)
Definition step (s : state) (e : event) : state := snd (handler e s).

Definition run (es : list event) (s : state) : state := foldl step s es.

Definition initial (items : list item) : state :=
  mk items 0 None None false None [] 1%positive 0 [].

(** The end of [init], from [showIndex(0)] on. *)
Definition startup : js unit :=
  showIndex 0;;
  s ← get;
  let firstDuration := duration_of (c ← currentItem s; loaded s !! c) in
  h ← setTimeout (firstDuration * 1000);
  modify (with_rotationTimer (Some h)).

Definition boot (items : list item) : state := (startup (initial items)).2.

(** [init()] once [loadAnimations] has produced [items]: nothing runs
    when there is no item. *)
Definition init (items : list item) : option state :=
  match items with
  | [] => None
  | _ :: _ => Some (boot items)
  end.

Definition has_instance (it : item) : bool :=
  match instance it with
  | Some _ => true
  | None => false
  end.

Definition is_running (it : item) : bool :=
  match instance it with
  | Some m => running m
  | None => false
  end.

(** How many module instances are in the Running state. *)
Definition running_count (s : state) : nat :=
  length (filter (fun it => is_running it = true) (loaded s)).

(** The variables and browser state that decide when a rotation
    happens. *)
Definition timing (s : state) : option positive * bool * list timer * positive * Z :=
  (rotationTimer s, paused s, timers s, next_timer s, now s).

(** What decides when a rotation happens and how long an element stays:
    the timing and the manifest entries. *)
Definition schedule (s : state) :=
  (timing s, cfg <$> loaded s).

(** At most the timer [rotationTimer] names is pending, and none is while
    the rotation is paused. *)
Definition timer_inv (s : state) : Prop :=
  (paused s = true -> timers s = [])
  /\ (timers s = [] \/ exists t, timers s = [t] /\ rotationTimer s = Some (handle t)).

(** Events in which nobody touches the page: time passes, timers fire. *)
Definition passive (e : event) : bool :=
  match e with
  | Wait _ | TimerFires _ => true
  | _ => false
  end.

(** The element after the current one, wrapping around. *)
Definition next_item (s : state) : option item :=
  lookupZ (loaded s)
    (Z.rem (currentIndex s + 1) (Z.of_nat (length (loaded s)))).

(** What matters of an element for counting: whether it has an instance
    and whether that instance is running. *)
Definition obs (it : item) : bool * bool := (has_instance it, is_running it).
Definition obs_list (s : state) : list (bool * bool) := obs <$> loaded s.

(** What [stop] and [start] of a module that honours the contract do to
    the observation of its element. *)
Definition halted (o : bool * bool) : bool * bool := (o.1, false).
Definition started (o : bool * bool) : bool * bool := (o.1, o.1).

(** Only the current element can be running. *)
Definition calm (s : state) : Prop :=
  forall j it, loaded s !! j = Some it -> is_running it = true ->
               currentItem s = Some j.

(** The current element exists, and an element is running exactly when it
    is the current one and has an instance. *)
Definition rot_inv (s : state) : Prop :=
  exists c : nat,
    currentItem s = Some c /\ currentIndex s = Z.of_nat c
    /\ (c < length (loaded s))%nat
    /\ forall j it, loaded s !! j = Some it ->
                    is_running it = bool_decide (j = c) && has_instance it.

(** The event, if it names an index or a step, leads onto one of the [n]
    elements. *)
Definition targets_entry (n : nat) (e : event) : Prop :=
  match e with
  | CallRotateNext k => - Z.of_nat n <= k
  | CallShowIndex i => 0 <= i < Z.of_nat n
  | _ => True
  end.

(** Exactly the current view is displayed, and [window.currentAnimation]
    is the current element's instance, or null when it has none. *)
Definition view_inv (s : state) : Prop :=
  exists c : nat,
    currentItem s = Some c
    /\ (forall j it, loaded s !! j = Some it -> display it = bool_decide (j = c))
    /\ currentAnimation s
       = match loaded s !! c with
         | Some it => if has_instance it then Some c else None
         | None => None
         end.

(** What holds of the page between any two events when the modules honour
    the contract. *)
Definition settled (n : nat) (s : state) : Prop :=
  rot_inv s /\ view_inv s /\ timer_inv s /\ length (loaded s) = n.

(** The elements and the pointers to the current one. *)
Definition page (s : state) : list item * Z * option nat * option nat :=
  (loaded s, currentIndex s, currentItem s, currentAnimation s).

(** The element the rotation currently points at. *)
Definition current (s : state) : option item :=
  lookupZ (loaded s) (currentIndex s).
End WithAnimation.

Arguments item M : clear implicits.
Arguments state M : clear implicits.
Arguments event : clear implicits.
End Loader.

(** ** Sample manifests *)

Definition template_item (d : option Z) : Loader.item TemplateAnimation.t :=
  Loader.mk_item false (Some (TemplateAnimation.create (800, 600)))
    (Loader.mk_config d).

(** An entry whose canvas or class was not found: [instance: null]. *)
Definition bare_item (d : option Z) : Loader.item TemplateAnimation.t :=
  Loader.mk_item false None (Loader.mk_config d).

Definition scripted_item (m : Scripted.t) (d : option Z) : Loader.item Scripted.t :=
  Loader.mk_item false (Some m) (Loader.mk_config d).

(** Two modules lasting 5 and 3 seconds. *)
Definition two_items : list (Loader.item TemplateAnimation.t) :=
  [template_item (Some 5); template_item (Some 3)].

(** The second entry has no instance. *)
Definition one_bare : list (Loader.item TemplateAnimation.t) :=
  [template_item (Some 5); bare_item (Some 3)].

(** The first module's [stop] throws. *)
Definition one_faulty : list (Loader.item Scripted.t) :=
  [scripted_item bad_stop (Some 5); scripted_item sound (Some 3)].

(** * Properties *)

(** ** Band extractor *)
Section BandExtractor.
Import AudioManager.

Lemma seqZ_S (i : Z) (n : nat) :
  seqZ i (Z.of_nat (S n)) = i :: seqZ (i + 1) (Z.of_nat n).
Proof.
  rewrite seqZ_cons by lia.
  replace (Z.succ i) with (i + 1) by lia.
  replace (Z.pred (Z.of_nat (S n))) with (Z.of_nat n) by lia.
  reflexivity.
Qed.

Lemma seqZ_to_nat (i n : Z) : seqZ i n = seqZ i (Z.of_nat (Z.to_nat n)).
Proof. unfold seqZ. now rewrite Nat2Z.id. Qed.

(** The loop adds the defined entries it walks over to its accumulators. *)
Lemma average_loop_spec (array : list (option Z)) (n : nat) :
  forall i values count,
    average_loop array n i values count =
    (values + Zsum (omap (js_index array) (seqZ i (Z.of_nat n))),
     count + Z.of_nat (length (omap (js_index array) (seqZ i (Z.of_nat n))))).
Proof.
  induction n as [|n IH]; intros i values count.
  - change (seqZ i (Z.of_nat 0)) with (@nil Z). cbn.
    now rewrite !Z.add_0_r.
  - rewrite seqZ_S. cbn [average_loop omap list_omap].
    destruct (js_index array i) as [v|].
    + rewrite IH. cbn [length].
      change (Zsum (v :: ?l)) with (v + Zsum l).
      rewrite Nat2Z.inj_succ. f_equal; lia.
    + apply IH.
Qed.

Lemma js_index_nonneg (array : list (option Z)) (i v : Z) :
  Forall (fun o => forall x, o = Some x -> 0 <= x) array ->
  js_index array i = Some v -> 0 <= v.
Proof.
  intros Hall. unfold js_index. destruct (i <? 0); [discriminate|].
  destruct (array !! Z.to_nat i) as [o|] eqn:E; [|discriminate].
  cbn. intros ->. eapply (proj1 (Forall_lookup _ _) Hall); eauto.
Qed.

Lemma Zsum_defined_nonneg (array : list (option Z)) (l : list Z) :
  Forall (fun o => forall x, o = Some x -> 0 <= x) array ->
  0 <= Zsum (omap (js_index array) l).
Proof.
  intros Hall. induction l as [|i l IH]; cbn; [lia|].
  destruct (js_index array i) as [v|] eqn:E; [|exact IH].
  cbn. fold (Zsum (omap (js_index array) l)).
  pose proof (js_index_nonneg _ _ _ Hall E). lia.
Qed.

Lemma mean_nonneg (l : list Z) : 0 <= Zsum l -> (0 <= mean l)%Q.
Proof.
  intros Hs. destruct l as [|x l]; [apply Qle_refl|].
  unfold mean. apply Qle_shift_div_l.
  - change 0%Q with (inject_Z 0). rewrite <- Zlt_Qlt. cbn [length]. lia.
  - rewrite Qmult_0_l. change 0%Q with (inject_Z 0). now rewrite <- Zle_Qle.
Qed.

Lemma getAverageVolume_eq_mean (array : list (option Z)) (start_ end_ : Z) :
  getAverageVolume array start_ end_ = mean (defined_entries array start_ end_).
Proof.
  unfold getAverageVolume, defined_entries.
  rewrite average_loop_spec, <- seqZ_to_nat, !Z.add_0_l.
  destruct (omap (js_index array) (seqZ start_ (end_ - start_))) as [|x l].
  - reflexivity.
  - unfold mean. cbn [length].
    destruct (Z.eqb_spec (Z.of_nat (S (length l))) 0); [lia|reflexivity].
Qed.

(** C6. For every array whose defined entries are magnitudes (not
    negative) and every range [start, end), [getAverageVolume] returns the
    arithmetic mean of the defined entries of the range; the result is not
    negative; it is 0 when the range has no defined entry, in particular
    when the range is empty. *)
Theorem getAverageVolume_is_mean (array : list (option Z)) (start_ end_ : Z) :
  Forall (fun o => forall x, o = Some x -> 0 <= x) array ->
  getAverageVolume array start_ end_ = mean (defined_entries array start_ end_)
  /\ (0 <= getAverageVolume array start_ end_)%Q
  /\ (defined_entries array start_ end_ = [] ->
      getAverageVolume array start_ end_ = 0%Q)
  /\ (end_ <= start_ -> getAverageVolume array start_ end_ = 0%Q).
Proof.
  intros Hall. rewrite getAverageVolume_eq_mean.
  split; [reflexivity|]. split; [|split].
  - apply mean_nonneg, Zsum_defined_nonneg, Hall.
  - now intros ->.
  - intros Hle. unfold defined_entries, seqZ.
    replace (Z.to_nat (end_ - start_)) with 0%nat by lia. reflexivity.
Qed.

Lemma getAverageVolume_is_mean_witness :
  Forall (fun o => forall x, o = Some x -> 0 <= x) [Some 1; None; Some 4]
  /\ getAverageVolume [Some 1; None; Some 4] (-1) 7 = (5 # 2)%Q.
Proof.
  assert (Hall : Forall (fun o => forall x, o = Some x -> 0 <= x)
                   [Some 1; None; Some 4]).
  { repeat constructor; intros x [= <-] || intros x [=]; lia. }
  split; [exact Hall|].
  rewrite (proj1 (getAverageVolume_is_mean [Some 1; None; Some 4] (-1) 7 Hall)).
  reflexivity.
Defined.
End BandExtractor.

(** ** Frame normalizer *)
Section FrameNormalizer.
Import AudioManager.

Lemma clamp_bounds (v : Q) : (0 <= clamp v)%Q /\ (clamp v <= 100)%Q.
Proof.
  unfold clamp. split.
  - apply Q.min_glb; [discriminate|apply Q.le_max_l].
  - apply Q.le_min_l.
Qed.

Lemma floor_clamp_bounds (v : Q) : 0 <= Qfloor (clamp v) <= 100.
Proof.
  destruct (clamp_bounds v) as [H0 H100]. split.
  - change 0 with (Qfloor 0). now apply Qfloor_resp_le.
  - change 100 with (Qfloor 100). now apply Qfloor_resp_le.
Qed.

(** C1. Whatever the three raw band values are, the three values handed
    to [updateFrequencies] are integers between 0 and 100. *)
Theorem deliver_in_bounds (low mid high : Q) :
  in_bounds (deliver low mid high).1.1
  /\ in_bounds (deliver low mid high).1.2
  /\ in_bounds (deliver low mid high).2.
Proof.
  unfold deliver, in_bounds; cbn.
  auto using floor_clamp_bounds.
Qed.
End FrameNormalizer.

(** ** Distribution loop *)
Section DistributionLoop.
Import AudioManager.
Context {M : Type} `{Animation M}.

(** What the values passed to [updateFrequencies] are. *)
Lemma loop_delivers (inp : frame_input) (w : world) (cur : option M) l m h :
  (loop inp w cur).1.1.2 = Some (l, m, h) ->
  exists low mid high, deliver low mid high = (l, m, h).
Proof.
  destruct w as [a b]. unfold loop.
  destruct (isTestMode _ || negb (isLive _)).
  - destruct (synthetic_bands (rnd inp)) as [[low mid] high].
    destruct (deliver low mid high) as [[l' m'] h'] eqn:E.
    destruct cur as [anim|]; [|discriminate].
    destruct (updateFrequencies l' m' h' anim) as [[?|?]|]; cbn;
      intros [= <- <- <-] || discriminate; eauto.
  - destruct (live_bands _) as [[low mid] high].
    destruct (deliver low mid high) as [[l' m'] h'] eqn:E.
    destruct cur as [anim|]; [|discriminate].
    destruct (updateFrequencies l' m' h' anim) as [[?|?]|]; cbn;
      intros [= <- <- <-] || discriminate; eauto.
Qed.

(** So every tick hands the module values between 0 and 100. *)
Lemma loop_delivers_in_bounds (inp : frame_input) (w : world) (cur : option M)
    l m h :
  (loop inp w cur).1.1.2 = Some (l, m, h) ->
  in_bounds l /\ in_bounds m /\ in_bounds h.
Proof.
  intros Hd. destruct (loop_delivers inp w cur l m h Hd) as (lo & mi & hi & E).
  unfold deliver in E. injection E as <- <- <-.
  unfold in_bounds. auto using floor_clamp_bounds.
Qed.

(** The first statement of [loop] takes effect however the call ends. *)
Lemma loop_registers (inp : frame_input) (w : world) (cur : option M) :
  rafId (loop inp w cur).1.2.1 = Some (next_raf w.2)
  /\ raf_queue (loop inp w cur).1.2.2 = raf_queue w.2 ++ [next_raf w.2]
  /\ ticks (loop inp w cur).1.2.2 = S (ticks w.2)
  /\ held (loop inp w cur).1.2.2 = held w.2
  /\ stream (loop inp w cur).1.2.1 = stream w.1.
Proof.
  destruct w as [a b]. unfold loop.
  destruct (isTestMode _ || negb (isLive _)).
  - destruct (synthetic_bands (rnd inp)) as [[low mid] high].
    destruct (deliver low mid high) as [[l' m'] h'].
    destruct cur as [anim|]; [|cbn; auto].
    destruct (updateFrequencies l' m' h' anim) as [[?|?]|]; cbn; auto.
  - destruct (live_bands _) as [[low mid] high].
    destruct (deliver low mid high) as [[l' m'] h'].
    destruct cur as [anim|]; [|cbn; auto].
    destruct (updateFrequencies l' m' h' anim) as [[?|?]|]; cbn; auto.
Qed.

Lemma startLoop_armed inp (w : world) (cur : option M) :
  raf_queue w.2 = [] ->
  armed (startLoop inp w cur).1.2
  /\ ticks (startLoop inp w cur).1.2.2 = S (ticks w.2).
Proof.
  intros Hq. unfold startLoop.
  destruct (loop_registers inp w cur) as (Hid & Hqueue & Hticks & _).
  destruct (loop inp w cur) as [[[ok d] w'] cur']. cbn in *.
  rewrite Hq in Hqueue. split; [|exact Hticks].
  exists (next_raf w.2). auto.
Qed.

Lemma frame_armed inp (w : world) (cur : option M) :
  armed w ->
  armed (frame inp w cur).1 /\ ticks (frame inp w cur).1.2 = S (ticks w.2).
Proof.
  intros (h & Hid & Hq). destruct w as [a b]. cbn in Hid, Hq.
  unfold frame. rewrite Hq. cbn [foldl fst snd].
  destruct (loop_registers inp (a, with_raf_queue [] b) cur)
    as (Hid' & Hqueue & Hticks & _).
  destruct (loop inp (a, with_raf_queue [] b) cur) as [[[ok d] w'] cur'].
  cbn in *. split; [|exact Hticks]. eexists; eauto.
Qed.

Lemma enableLiveInput_raf granted (w : world) :
  rafId (enableLiveInput granted w).2.1 = rafId w.1
  /\ raf_queue (enableLiveInput granted w).2.2 = raf_queue w.2
  /\ ticks (enableLiveInput granted w).2.2 = ticks w.2.
Proof.
  destruct w as [[ctx src st da live test raf] [hd ns cn rq nr tk]].
  unfold enableLiveInput, enableLiveInput_request, enableLiveInput_settle.
  cbn. destruct ctx as [[]|], st, src, granted; cbn; auto.
Qed.

Lemma setTestMode_rafId enabled (a : t) :
  rafId (setTestMode enabled a) = rafId a.
Proof.
  destruct a as [ctx src st da live test raf].
  unfold setTestMode. cbn. destruct ctx as [[]|], enabled; reflexivity.
Qed.

Lemma step_armed (w : world) (e : event) :
  armed w ->
  armed (step w e)
  /\ ticks (step w e).2 = (ticks w.2 + if is_frame e then 1 else 0)%nat.
Proof.
  intros Harmed. destruct e as [inp cur|enabled|granted]; cbn [step is_frame].
  - destruct (frame_armed inp w cur Harmed) as [Ha Ht].
    split; [exact Ha|]. rewrite Ht. lia.
  - destruct Harmed as (h & Hid & Hq).
    split; [|cbn; lia]. exists h. cbn. now rewrite setTestMode_rafId.
  - destruct Harmed as (h & Hid & Hq).
    destruct (enableLiveInput_raf granted w) as (Hr & Hqq & Ht).
    split; [|rewrite Ht; lia]. exists h. now rewrite Hr, Hqq.
Qed.

Lemma run_armed (es : list event) :
  forall w : world,
    armed w ->
    armed (run es w)
    /\ ticks (run es w).2 = (ticks w.2 + frames es)%nat.
Proof.
  induction es as [|e es IH]; intros w Harmed.
  - cbn. split; [exact Harmed|lia].
  - destruct (step_armed w e Harmed) as [Ha Ht].
    destruct (IH _ Ha) as [Ha' Ht'].
    change (run (e :: es) w) with (run es (step w e)).
    split; [exact Ha'|]. rewrite Ht', Ht. unfold frames.
    rewrite filter_cons. destruct (is_frame e); cbn.
    + destruct (decide (true = true)); [cbn; lia|congruence].
    + destruct (decide (false = true)); [congruence|lia].
Qed.

(** An exception of [updateFrequencies] is not caught in [loop]. *)
Lemma loop_lets_exception_out inp (w : world) (anim : M) :
  (forall l m h, exists anim', updateFrequencies l m h anim = Some (Thrown anim')) ->
  (loop inp w (Some anim)).1.1.1 = false.
Proof.
  intros Hthrows. destruct w as [a b]. unfold loop.
  destruct (isTestMode _ || negb (isLive _)).
  - destruct (synthetic_bands (rnd inp)) as [[low mid] high].
    destruct (deliver low mid high) as [[l m] h].
    destruct (Hthrows l m h) as [anim' ->]. reflexivity.
  - destruct (live_bands _) as [[low mid] high].
    destruct (deliver low mid high) as [[l m] h].
    destruct (Hthrows l m h) as [anim' ->]. reflexivity.
Qed.

(** C10. Every run of [loop] registers the next callback before it calls
    [updateFrequencies], so the registration stands whether the call
    returns or throws, and a throw is not caught in [loop]; hence once
    [startLoop] has run, every animation frame runs [loop] once more,
    whatever the modules it delivers to do and whatever else happens to the
    manager in between. *)
Theorem loop_survives_exceptions inp0 (cur0 : option M) (w : world)
    (es : list event) :
  raf_queue w.2 = [] ->
  (forall inp (w' : world) (cur : option M),
      rafId (loop inp w' cur).1.2.1 = Some (next_raf w'.2)
      /\ raf_queue (loop inp w' cur).1.2.2 = raf_queue w'.2 ++ [next_raf w'.2])
  /\ (forall inp (w' : world) (anim : M),
        (forall l m h, exists anim',
            updateFrequencies l m h anim = Some (Thrown anim')) ->
        (loop inp w' (Some anim)).1.1.1 = false)
  /\ armed (run es (startLoop inp0 w cur0).1.2)
  /\ ticks (run es (startLoop inp0 w cur0).1.2).2 =
     (ticks w.2 + 1 + frames es)%nat.
Proof.
  intros Hq. split; [|split].
  - intros inp w' cur. destruct (loop_registers inp w' cur) as (? & ? & _).
    auto.
  - apply loop_lets_exception_out.
  - destruct (startLoop_armed inp0 w cur0 Hq) as [Ha Ht].
    destruct (run_armed es _ Ha) as [Ha' Ht'].
    split; [exact Ha'|]. rewrite Ht', Ht. lia.
Qed.
End DistributionLoop.

Section DistributionLoopCases.
Import AudioManager.

Lemma loop_survives_exceptions_witness :
  raf_queue fresh.2 = []
  /\ ticks (run [Frame quiet_frame (Some bad_update);
                 Frame quiet_frame (Some bad_update)]
              (startLoop quiet_frame fresh (Some bad_update)).1.2).2 = 3%nat.
Proof.
  split; [reflexivity|].
  rewrite (proj2 (proj2 (proj2 (loop_survives_exceptions quiet_frame
             (Some bad_update) fresh _ eq_refl)))).
  reflexivity.
Defined.

End DistributionLoopCases.

(** ** Signal source switch *)
Section SourceSwitch.
Import AudioManager.
Context {M : Type} `{Animation M}.

Lemma frame_keeps_handles inp (w : world) (cur : option M) :
  held (frame inp w cur).1.2 = held w.2
  /\ stream (frame inp w cur).1.1 = stream w.1.
Proof.
  destruct w as [a b]. unfold frame.
  change (held (a, b).2) with (held (a, with_raf_queue [] b).2).
  change (stream (a, b).1) with (stream (a, with_raf_queue [] b).1).
  generalize (a, with_raf_queue [] b) as w. generalize (raf_queue b) as q.
  clear a b. intros q. revert cur.
  induction q as [|x q IH]; intros cur w; [cbn; auto|].
  cbn [foldl fst snd].
  destruct (loop_registers inp w cur) as (_ & _ & _ & Hh & Hs).
  destruct (loop inp w cur) as [[[ok d] w'] cur']. cbn in Hh, Hs.
  destruct (IH cur' w') as [IHh IHs]. rewrite <- Hh, <- Hs. auto.
Qed.

Lemma setTestMode_stream enabled (a : t) :
  stream (setTestMode enabled a) = stream a.
Proof.
  destruct a as [ctx src st da live_ test raf].
  unfold setTestMode. cbn. destruct ctx as [[]|], enabled; reflexivity.
Qed.

Lemma enableLiveInput_one_handle granted (w : world) :
  one_handle w -> one_handle (enableLiveInput granted w).2.
Proof.
  destruct w as [[ctx src st da live_ test raf] [hd ns cn rq nr tk]].
  unfold one_handle, enableLiveInput, enableLiveInput_request,
    enableLiveInput_settle. cbn.
  intros [->|(s & -> & ->)].
  - destruct ctx as [[]|], st, src, granted; cbn; eauto.
  - destruct ctx as [[]|], src, granted; cbn;
      destruct (decide (s <> s)); try congruence; eauto.
Qed.

Lemma enableLiveInput_granted_holds_one (w : world) :
  one_handle w -> length (held (enableLiveInput true w).2.2) = 1%nat.
Proof.
  destruct w as [[ctx src st da live_ test raf] [hd ns cn rq nr tk]].
  unfold one_handle, enableLiveInput, enableLiveInput_request,
    enableLiveInput_settle. cbn.
  intros [->|(s & -> & ->)].
  - destruct ctx as [[]|], st, src; reflexivity.
  - destruct ctx as [[]|], src; cbn;
      destruct (decide (s <> s)); try congruence; reflexivity.
Qed.

Lemma step_one_handle (w : world) (e : event (M:=M)) :
  one_handle w -> one_handle (step w e).
Proof.
  destruct e as [inp cur|enabled|granted]; cbn [step].
  - destruct (frame_keeps_handles inp w cur) as [Hh Hs].
    unfold one_handle. now rewrite Hh, Hs.
  - unfold one_handle. cbn. now rewrite setTestMode_stream.
  - apply enableLiveInput_one_handle.
Qed.

Lemma run_one_handle (es : list (event (M:=M))) :
  forall w, one_handle w -> one_handle (run es w).
Proof.
  induction es as [|e es IH]; intros w Hw; [exact Hw|].
  apply (IH (step w e)), step_one_handle, Hw.
Qed.

(** C9, as the code has it.  Switching between live and synthetic mode
    with [setTestMode] neither releases nor acquires a capture handle: the
    stream stays held.  Over any sequence of mode switches, completed
    [enableLiveInput] calls and frames, at most one handle is held, and a
    granted [enableLiveInput] leaves exactly one held. *)
Theorem at_most_one_handle (es : list (event (M:=M))) :
  (forall enabled (w : world),
      held (step (M:=M) w (SetTestMode enabled)).2 = held w.2)
  /\ (length (held (run es fresh).2) <= 1)%nat
  /\ length (held (step (run es fresh) (EnableLiveInput true)).2) = 1%nat.
Proof.
  assert (one_handle (run es fresh)) as Hinv.
  { apply run_one_handle. now left. }
  split; [reflexivity|]. split.
  - destruct Hinv as [->|(st & _ & ->)]; cbn; lia.
  - now apply enableLiveInput_granted_holds_one.
Qed.
End SourceSwitch.

Section SourceSwitchCases.
Import AudioManager.

(** C9 as stated fails: going from live to synthetic releases no handle. *)
Lemma live_to_synthetic_keeps_handle :
  isLive live.1 = true
  /\ isTestMode (setTestMode true live.1) = true
  /\ ~ (S (length (held (step (M:=Scripted.t) live (SetTestMode true)).2))
        = length (held live.2)).
Proof. split; [reflexivity|]. split; [reflexivity|]. cbn. lia. Qed.

(** Two calls that overlap, as when one click reaches both listeners of
    the microphone button: both pass step 2 before either stream exists,
    and both streams end up held. *)
Lemma overlapping_requests_hold_two :
  length (held (enableLiveInput_settle true
                  (enableLiveInput_settle true
                     (enableLiveInput_request
                        (enableLiveInput_request fresh))).2).2.2) = 2%nat.
Proof. reflexivity. Qed.

(** C5 at a failed device switch.  A second [enableLiveInput] that is
    refused returns false, and leaves the manager live, out of test mode,
    pointing at a stream whose tracks were stopped and at a source that was
    disconnected. *)
Theorem failed_switch_stays_live :
  refused.1 = false
  /\ isLive refused.2.1 = true
  /\ isTestMode refused.2.1 = false
  /\ stream refused.2.1 = Some 1%positive
  /\ held refused.2.2 = []
  /\ source refused.2.1 = Some 1%positive
  /\ connected refused.2.2 = [].
Proof. repeat split; reflexivity. Qed.

(** After it the loop reads the analyser, not the random generator: with
    draws of 1/2 the synthetic branch would deliver 50. *)
Lemma failed_switch_not_synthetic :
  (loop quiet_frame refused.2 (Some sound)).1.1.2 = Some (0, 0, 0)
  /\ (loop quiet_frame fresh (Some sound)).1.1.2 = Some (50, 50, 50).
Proof. split; vm_compute; reflexivity. Qed.

(** A refused first request leaves the manager as synthetic as it was. *)
Lemma failed_first_request_stays_synthetic (w : world) :
  isLive w.1 = false ->
  stream w.1 = None ->
  (enableLiveInput false w).1 = false
  /\ isLive (enableLiveInput false w).2.1 = false
  /\ stream (enableLiveInput false w).2.1 = None
  /\ held (enableLiveInput false w).2.2 = held w.2.
Proof.
  destruct w as [[ctx src st da live_ test raf] [hd ns cn rq nr tk]]. cbn.
  intros -> ->.
  unfold enableLiveInput, enableLiveInput_request, enableLiveInput_settle.
  destruct ctx as [[]|], src; cbn; auto.
Qed.

End SourceSwitchCases.

(** ** Module lifecycle: the template animation *)
Section TemplateLifecycle.
Import TemplateAnimation.

Lemma resize_keeps_frame (a : t) :
  frameId (resize a) = frameId a /\ callbacks (resize a) = callbacks a
  /\ next_handle (resize a) = next_handle a.
Proof.
  unfold resize. destruct (rect a) as [rectW rectH].
  destruct ((rectW <=? 2) || (rectH <=? 2)); cbn; auto.
Qed.

Lemma consistent_resize (a : t) : consistent a -> consistent (resize a).
Proof.
  unfold consistent. destruct (resize_keeps_frame a) as (-> & -> & _). auto.
Qed.

Lemma consistent_create (r : Z * Z) :
  consistent (create r) /\ frameId (create r) = None.
Proof.
  unfold create.
  destruct (resize_keeps_frame (mk None 0 0 0 0 0 false r [] 1%positive))
    as (Hf & Hc & _).
  unfold consistent. rewrite Hf, Hc. auto.
Qed.

Lemma start_stopped (a : t) :
  frameId a = None -> consistent a ->
  frameId (start a) = Some (next_handle a)
  /\ callbacks (start a) = [next_handle a].
Proof.
  unfold consistent, start. intros Hf Hc. rewrite Hf in *.
  destruct (resize_keeps_frame a) as (_ & Hcb & Hn).
  cbn. rewrite Hcb, Hn, Hc. auto.
Qed.

Lemma start_started (a : t) : is_Some (frameId a) -> start a = a.
Proof. unfold start. now intros [h ->]. Qed.

Lemma stop_stopped (a : t) : frameId a = None -> stop a = a.
Proof. unfold stop. now intros ->. Qed.

Lemma stop_spec (a : t) :
  consistent a -> frameId (stop a) = None /\ callbacks (stop a) = [].
Proof.
  unfold consistent, stop. destruct (frameId a) as [h|] eqn:Hf; [|auto].
  intros Hc. cbn. rewrite Hc. cbn.
  destruct (decide (h <> h)); [congruence|auto].
Qed.

Lemma consistent_start (a : t) : consistent a -> consistent (start a).
Proof.
  intros Hc. destruct (frameId a) as [h|] eqn:Hf.
  - now rewrite start_started by eauto.
  - destruct (start_stopped a Hf Hc) as [Hf' Hc'].
    unfold consistent. now rewrite Hf', Hc'.
Qed.

Lemma consistent_stop (a : t) : consistent a -> consistent (stop a).
Proof.
  intros Hc. destruct (stop_spec a Hc) as [Hf' Hc'].
  unfold consistent. now rewrite Hf', Hc'.
Qed.

Lemma consistent_updateFrequencies l m h (a : t) :
  consistent a -> consistent (updateFrequencies l m h a).
Proof. auto. Qed.

(** A frame runs the one registered callback, which registers itself
    again: the loop neither dies nor multiplies. *)
Lemma consistent_animation_frame (a : t) :
  consistent a ->
  consistent (animation_frame a)
  /\ length (callbacks (animation_frame a)) = length (callbacks a).
Proof.
  unfold consistent, animation_frame. intros Hc. rewrite Hc.
  destruct (frameId a) as [h|]; cbn [foldl]; [|auto].
  unfold drawFrame. cbn [initialized].
  destruct (negb (initialized a)); [|cbn; auto].
  match goal with |- context [resize ?x] =>
    destruct (resize_keeps_frame x) as (_ & Hcb & _) end.
  cbn in *. rewrite Hcb. auto.
Qed.

Lemma start_twice (a : t) :
  consistent a ->
  start (start a) = start a
  /\ exists h, frameId (start (start a)) = Some h
              /\ callbacks (start (start a)) = [h].
Proof.
  intros Hc.
  assert (exists h, frameId (start a) = Some h /\ callbacks (start a) = [h])
    as (h & Hf & Hcb).
  { destruct (frameId a) as [h|] eqn:Hf.
    - rewrite start_started by eauto. exists h. split; [exact Hf|].
      unfold consistent in Hc. now rewrite Hf in Hc.
    - destruct (start_stopped a Hf Hc). eauto. }
  rewrite (start_started (start a)) by eauto. eauto.
Qed.

(** C8. On an instance whose registered callbacks are those it knows of
    (every instance from the constructor on), [start] called twice in a row
    does what one call does and leaves exactly one draw callback
    registered, the one [frameId] names; [stop] called twice in a row, or on
    an instance that was never started, returns without throwing and leaves
    [frameId] null and no callback registered. *)
Theorem start_stop_idempotent (a : t) (r : Z * Z) :
  consistent a ->
  (start (start a) = start a
   /\ exists h, frameId (start (start a)) = Some h
               /\ callbacks (start (start a)) = [h])
  /\ (stop (stop a) = stop a
      /\ stop_hook (stop a) = Some (Returned (stop (stop a)))
      /\ frameId (stop (stop a)) = None
      /\ callbacks (stop (stop a)) = [])
  /\ (stop_hook (create r) = Some (Returned (create r))
      /\ frameId (create r) = None
      /\ callbacks (create r) = []).
Proof.
  intros Hc. split; [|split].
  - now apply start_twice.
  - destruct (stop_spec a Hc) as [Hf Hcb].
    rewrite (stop_stopped (stop a) Hf). repeat split; auto.
    cbn. now rewrite (stop_stopped (stop a) Hf).
  - destruct (consistent_create r) as [Hcr Hf].
    unfold consistent in Hcr. rewrite Hf in Hcr. repeat split; auto.
    cbn. now rewrite (stop_stopped (create r) Hf).
Qed.

Lemma start_stop_idempotent_witness :
  consistent (create (800, 600))
  /\ length (callbacks (start (start (create (800, 600))))) = 1%nat
  /\ frameId (stop (stop (start (create (800, 600))))) = None.
Proof.
  split; [reflexivity|]. split.
  - destruct (proj1 (start_stop_idempotent (create (800, 600)) (800, 600)
                       eq_refl)) as (_ & h & _ & ->).
    reflexivity.
  - apply (proj2 (start_stop_idempotent (start (create (800, 600))) (800, 600)
                    eq_refl)).
Defined.

(** The template class honours the contract. *)
#[export] Instance template_lawful : Lawful TemplateAnimation.t.
Proof.
  split; intros m; eexists; (split; [reflexivity|]); cbn.
  - apply bool_decide_eq_true. unfold start.
    destruct (frameId m) as [h|] eqn:Hf; [rewrite Hf; eauto|].
    cbn. eauto.
  - apply bool_decide_eq_false. unfold stop.
    destruct (frameId m) as [h|] eqn:Hf; cbn; [|rewrite Hf];
      intros [x Hx]; discriminate.
Qed.
End TemplateLifecycle.

(** ** Rotation controller *)
Section Rotation.
Import Loader.
Context {M : Type} `{Animation M}.

Lemma showIndex_unfold (index : Z) (s : state M) :
  showIndex index s =
  let s0 := with_shown (index :: shown s) s in
  match (match currentItem s0 with
         | Some c => call_hook stop c s0
         | None => (Ok tt, s0)
         end) with
  | (Ok _, s1) =>
      let s2 := hideAll s1 in
      match lookupZ (loaded s2) index with
      | None => (Ok tt, s2)
      | Some _ =>
          let i := Z.to_nat index in
          match call_hook start i (show_view i s2) with
          | (Ok _, s3) => (Ok tt, set_current i index s3)
          | (Exn, s3) => (Exn, s3)
          end
      end
  | (Exn, s1) => (Exn, s1)
  end.
Proof.
  unfold showIndex, mbind, js_bind, get, modify. cbn.
  destruct (currentItem s) as [c|]; cbn.
  - destruct (call_hook stop c _) as [[[]|] s1]; cbn; [|reflexivity].
    destruct (lookupZ _ index); [|reflexivity].
    destruct (call_hook start _ _) as [[[]|] s3]; reflexivity.
  - destruct (lookupZ _ index); [|reflexivity].
    destruct (call_hook start _ _) as [[[]|] s3]; reflexivity.
Qed.

Lemma rotateNext_unfold (step_ : Z) (s : state M) :
  rotateNext step_ s =
  let len := Z.of_nat (length (loaded s)) in
  let next := Z.rem (currentIndex s + step_ + len) len in
  match showIndex next s with
  | (Ok _, s1) =>
      let d := duration_of (lookupZ (loaded s1) next) in
      let s2 := clearTimeout (rotationTimer s1) s1 in
      if paused s1 then (Ok tt, s2)
      else (Ok tt, with_rotationTimer (Some (next_timer s2)) (setTimeout (d * 1000) s2).2)
  | (Exn, s1) => (Exn, s1)
  end.
Proof.
  unfold rotateNext, mbind, js_bind, get. cbn.
  destruct (showIndex _ s) as [[[]|] s1]; cbn; [|reflexivity].
  unfold modify. cbn. destruct (paused s1); reflexivity.
Qed.

Lemma fmap_alter_same {A B} (f : A -> B) (g : A -> A) (l : list A) (i : nat) :
  (forall x, f (g x) = f x) -> f <$> alter g i l = f <$> l.
Proof.
  intros Hfg. rewrite (list_fmap_alter f g id) by now apply Forall_true.
  now apply list_alter_id.
Qed.

(** A hook call changes [loaded] only, and there the instance only. *)
Lemma call_hook_schedule (hook : M -> option (outcome M)) (i : nat) (s : state M) :
  schedule (call_hook hook i s).2 = schedule s
  /\ shown (call_hook hook i s).2 = shown s.
Proof.
  unfold call_hook.
  destruct (loaded s !! i) as [it|]; [|auto].
  destruct (instance it) as [m|]; [|auto].
  destruct (hook m) as [[m'|m']|]; (split; [|reflexivity]);
    unfold schedule; cbn; f_equal; now apply fmap_alter_same.
Qed.

Lemma hideAll_schedule (s : state M) :
  schedule (hideAll s) = schedule s /\ shown (hideAll s) = shown s.
Proof.
  split; [|reflexivity]. unfold schedule. cbn. f_equal.
  now rewrite <- list_fmap_compose.
Qed.

Lemma show_view_schedule (i : nat) (s : state M) :
  schedule (show_view i s) = schedule s /\ shown (show_view i s) = shown s.
Proof.
  split; [|reflexivity]. unfold schedule. cbn. f_equal.
  now apply fmap_alter_same.
Qed.

(** [showIndex] leaves timers, pause flag and manifest alone, and is
    recorded once. *)
Lemma showIndex_schedule (index : Z) (s : state M) :
  schedule (showIndex index s).2 = schedule s
  /\ shown (showIndex index s).2 = index :: shown s.
Proof.
  rewrite showIndex_unfold. cbn zeta.
  set (s0 := with_shown (index :: shown s) s).
  assert (forall s1 : state M,
    schedule s1 = schedule s -> shown s1 = index :: shown s ->
    let r := match lookupZ (loaded (hideAll s1)) index with
       | None => (Ok tt, hideAll s1)
       | Some _ =>
          match call_hook start (Z.to_nat index)
                  (show_view (Z.to_nat index) (hideAll s1)) with
          | (Ok _, s3) => (Ok tt, set_current (Z.to_nat index) index s3)
          | (Exn, s3) => (Exn, s3)
          end
       end in
    schedule r.2 = schedule s /\ shown r.2 = index :: shown s) as Hrest.
  { intros s1 Hsch Hsh.
    destruct (hideAll_schedule s1) as [Hh1 Hh2].
    destruct (lookupZ _ index); cbn zeta; [|cbn [snd]; split; congruence].
    destruct (show_view_schedule (Z.to_nat index) (hideAll s1)) as [Hv1 Hv2].
    destruct (call_hook_schedule start (Z.to_nat index)
                (show_view (Z.to_nat index) (hideAll s1))) as [Hc1 Hc2].
    destruct (call_hook start _ _) as [[[]|] s3]; cbn [snd] in *.
    - change (schedule (set_current (Z.to_nat index) index s3))
        with (schedule s3).
      change (shown (set_current (Z.to_nat index) index s3)) with (shown s3).
      split; congruence.
    - split; congruence. }
  change (currentItem s0) with (currentItem s).
  destruct (currentItem s) as [c|].
  - destruct (call_hook_schedule stop c s0) as [Hc1 Hc2].
    destruct (call_hook stop c s0) as [[[]|] s1]; cbn [snd] in *.
    + apply Hrest; [exact Hc1|exact Hc2].
    + split; [exact Hc1|exact Hc2].
  - now apply Hrest.
Qed.

Lemma timer_inv_timing (s s' : state M) :
  timing s' = timing s -> timer_inv s -> timer_inv s'.
Proof.
  unfold timing, timer_inv. intros [= -> -> -> _ _]. auto.
Qed.

Lemma timer_inv_schedule (s s' : state M) :
  schedule s' = schedule s -> timer_inv s -> timer_inv s'.
Proof. intros Hs. apply timer_inv_timing. exact (f_equal fst Hs). Qed.

(** Clearing the timer [rotationTimer] names leaves none pending. *)
Lemma clearTimeout_rotationTimer (s : state M) :
  timer_inv s -> timers (clearTimeout (rotationTimer s) s) = [].
Proof.
  intros [_ [Hnil|(t & Ht & Hr)]]; unfold clearTimeout.
  - destruct (rotationTimer s); cbn; now rewrite Hnil.
  - rewrite Hr. cbn. rewrite Ht, filter_cons, filter_nil.
    destruct (decide (handle t <> handle t)); [congruence|reflexivity].
Qed.

Lemma clearTimeout_other (h : option positive) (s : state M) :
  paused (clearTimeout h s) = paused s
  /\ now (clearTimeout h s) = now s
  /\ next_timer (clearTimeout h s) = next_timer s
  /\ loaded (clearTimeout h s) = loaded s
  /\ shown (clearTimeout h s) = shown s
  /\ currentIndex (clearTimeout h s) = currentIndex s.
Proof. destruct h; cbn; auto 6. Qed.

(** [rotateNext] shows one element; unless paused, it leaves exactly one
    timer, sized to that element. *)
Lemma rotateNext_spec (step_ : Z) (s : state M) :
  timer_inv s ->
  timer_inv (rotateNext step_ s).2
  /\ shown (rotateNext step_ s).2
     = Z.rem (currentIndex s + step_ + Z.of_nat (length (loaded s)))
         (Z.of_nat (length (loaded s))) :: shown s
  /\ paused (rotateNext step_ s).2 = paused s
  /\ (paused s = true -> (rotateNext step_ s).1 = Ok tt ->
      timers (rotateNext step_ s).2 = []).
Proof.
  intros Hinv. rewrite rotateNext_unfold. cbn zeta.
  set (next := Z.rem _ _).
  destruct (showIndex_schedule next s) as [Hsch Hsh].
  pose proof (timer_inv_schedule _ _ Hsch Hinv) as Hinv1.
  assert (paused (showIndex next s).2 = paused s) as Hp
    by (unfold schedule, timing in Hsch; congruence).
  destruct (showIndex next s) as [[[]|] s1]; cbn [fst snd] in *.
  - pose proof (clearTimeout_rotationTimer s1 Hinv1) as Hclr.
    destruct (clearTimeout_other (rotationTimer s1) s1)
      as (Hcp & _ & _ & _ & Hcs & _).
    destruct (paused s1) eqn:Hpaused; cbn [fst snd].
    + split; [|split; [|split]].
      * split; [intros _; exact Hclr|now left].
      * congruence.
      * congruence.
      * intros _ _. exact Hclr.
    + split; [|split; [|split]].
      * unfold timer_inv. cbn. rewrite Hclr, Hcp. cbn.
        split; [discriminate|]. right. eexists. split; reflexivity.
      * cbn. congruence.
      * cbn. congruence.
      * intros Htrue. congruence.
  - split; [exact Hinv1|]. split; [exact Hsh|]. split; [congruence|discriminate].
Qed.

Lemma on_pause_spec (s : state M) :
  timer_inv s ->
  timer_inv (on_pause s).2
  /\ shown (on_pause s).2 = shown s
  /\ paused (on_pause s).2 = negb (paused s)
  /\ (paused s = false -> timers (on_pause s).2 = [])
  /\ (paused s = true ->
      timers (on_pause s).2
      = [mk_timer (next_timer s) (duration_of (next_item s) * 1000)
           (now s + Z.max 0 (duration_of (next_item s) * 1000))]
      /\ rotationTimer (on_pause s).2 = Some (next_timer s)).
Proof.
  intros Hinv. pose proof (clearTimeout_rotationTimer s Hinv) as Hclr.
  unfold on_pause, mbind, js_bind, get, modify. cbn.
  destruct (paused s) eqn:Hp; cbn.
  - (* resume *)
    unfold timer_inv. cbn.
    destruct (rotationTimer s) as [h|]; cbn in *; rewrite Hclr; cbn.
    + repeat split; try discriminate; eauto.
    + repeat split; try discriminate; eauto.
  - (* pause *)
    unfold timer_inv. cbn.
    destruct (rotationTimer s) as [h|]; cbn in *; rewrite ?Hclr;
      repeat split; auto; discriminate.
Qed.

(** No timer runs when none is pending. *)
Lemma on_timer_idle (h : positive) (s : state M) :
  timers s = [] -> on_timer h s = (Ok tt, s).
Proof.
  intros Hnil. unfold on_timer, mbind, js_bind, get. cbn. rewrite Hnil.
  rewrite bool_decide_eq_false_2; [reflexivity|].
  now rewrite Exists_nil.
Qed.

Lemma on_timer_inv (h : positive) (s : state M) :
  timer_inv s -> timer_inv (on_timer h s).2.
Proof.
  intros Hinv. unfold on_timer, mbind, js_bind, get, modify. cbn.
  destruct (bool_decide _) eqn:Hdue; [|exact Hinv]. cbn.
  apply bool_decide_eq_true in Hdue.
  apply rotateNext_spec.
  destruct Hinv as [Hp [Hnil|(t & Ht & Hr)]].
  - rewrite Hnil in Hdue. now apply Exists_nil in Hdue.
  - rewrite Ht in Hdue. apply Exists_cons in Hdue as [[Hh _]|Hdue];
      [|now apply Exists_nil in Hdue].
    unfold timer_inv. cbn. rewrite Ht, filter_cons, filter_nil.
    destruct (decide (handle t <> h)); [congruence|]. auto.
Qed.

Lemma step_timer_inv (s : state M) (e : event) :
  timer_inv s -> timer_inv (step s e).
Proof.
  intros Hinv. destruct e as [| | |k|index|ms|h]; unfold step; cbn [handler].
  - unfold on_prev, mbind, js_bind, modify. cbn.
    apply rotateNext_spec. destruct Hinv as [_ H2]. split; [discriminate|exact H2].
  - unfold on_next, mbind, js_bind, modify. cbn.
    apply rotateNext_spec. destruct Hinv as [_ H2]. split; [discriminate|exact H2].
  - now apply on_pause_spec.
  - now apply rotateNext_spec.
  - destruct (showIndex_schedule index s) as [Hsch _].
    exact (timer_inv_schedule _ _ Hsch Hinv).
  - exact Hinv.
  - now apply on_timer_inv.
Qed.

Lemma run_timer_inv (es : list event) :
  forall s : state M, timer_inv s -> timer_inv (run es s).
Proof.
  induction es as [|e es IH]; intros s Hinv; [exact Hinv|].
  apply (IH (step s e)), step_timer_inv, Hinv.
Qed.

Lemma init_timer_inv (items : list (item M)) (s0 : state M) :
  init items = Some s0 -> timer_inv s0.
Proof.
  destruct items as [|it items]; [discriminate|]. intros [= <-].
  set (s := initial (it :: items)).
  unfold boot, startup, mbind, js_bind, get, modify. fold s. cbn.
  destruct (showIndex_schedule 0 s) as [Hsch _].
  assert (timer_inv s) as Hinv by (split; [reflexivity|now left]).
  pose proof (timer_inv_schedule _ _ Hsch Hinv) as Hinv1.
  assert (paused (showIndex 0 s).2 = paused s
          /\ timers (showIndex 0 s).2 = timers s)
    as [Hp Ht] by (unfold schedule, timing in Hsch; split; congruence).
  destruct (showIndex 0 s) as [[[]|] s1]; cbn [fst snd] in *; [|exact Hinv1].
  unfold timer_inv. cbn. rewrite Hp, Ht. cbn. split; [discriminate|].
  right. eexists. split; reflexivity.
Qed.

(** While paused, passing time and firing timers change nothing. *)
Lemma passive_step_paused (s : state M) (e : event) :
  passive e = true -> timer_inv s -> paused s = true ->
  shown (step s e) = shown s /\ paused (step s e) = true.
Proof.
  intros He [Hp _] Hpaused. specialize (Hp Hpaused).
  destruct e as [| | |k|index|ms|h]; try discriminate; unfold step; cbn [handler].
  - cbn. auto.
  - rewrite on_timer_idle by exact Hp. auto.
Qed.

Lemma passive_run_paused (env : list event) :
  forall s : state M,
    Forall (fun e => passive e = true) env ->
    timer_inv s -> paused s = true ->
    shown (run env s) = shown s /\ paused (run env s) = true.
Proof.
  induction env as [|e env IH]; intros s Hall Hinv Hpaused; [auto|].
  apply Forall_cons in Hall as [He Hall].
  destruct (passive_step_paused s e He Hinv Hpaused) as [Hsh Hp].
  destruct (IH (step s e) Hall (step_timer_inv s e Hinv) Hp) as [Hsh' Hp'].
  change (run (e :: env) s) with (run env (step s e)).
  split; congruence.
Qed.

(** C7. Once the rotation has been paused, no [showIndex] call happens
    while time passes and timers come due, however long: the pause click
    itself shows nothing and leaves no timer pending, and [rotateNext]
    arms none while paused. *)
Theorem paused_rotation_shows_nothing (items : list (item M)) (s0 : state M)
    (es env : list event) (k : Z) :
  init items = Some s0 ->
  paused (run es s0) = false ->
  Forall (fun e => passive e = true) env ->
  paused (step (run es s0) ClickPause) = true
  /\ timers (step (run es s0) ClickPause) = []
  /\ shown (run env (step (run es s0) ClickPause)) = shown (run es s0)
  /\ paused (run env (step (run es s0) ClickPause)) = true
  /\ ((rotateNext k (step (run es s0) ClickPause)).1 = Ok tt ->
      timers (rotateNext k (step (run es s0) ClickPause)).2 = []).
Proof.
  intros Hinit Hp Henv.
  pose proof (run_timer_inv es s0 (init_timer_inv _ _ Hinit)) as Hinv.
  destruct (on_pause_spec _ Hinv) as (Hinv' & Hsh & Hp' & Hnil & _).
  change (on_pause (run es s0)).2 with (step (run es s0) ClickPause) in *.
  rewrite Hp in Hp'. cbn in Hp'.
  destruct (passive_run_paused env _ Henv Hinv' Hp') as [Hsh' Hp''].
  destruct (rotateNext_spec k _ Hinv') as (_ & _ & _ & Hrot).
  repeat split; auto; congruence.
Qed.

(** C4, as the code has it.  When the rotation is resumed, the one timer
    that is armed is sized to the element after the current one (wrapping
    around), 8 seconds when that element gives no duration. *)
Theorem resume_uses_next_duration (items : list (item M)) (s0 : state M)
    (es : list event) :
  init items = Some s0 ->
  paused (run es s0) = true ->
  paused (step (run es s0) ClickPause) = false
  /\ delay <$> timers (step (run es s0) ClickPause)
     = [duration_of (next_item (run es s0)) * 1000]
  /\ handle <$> timers (step (run es s0) ClickPause)
     = [next_timer (run es s0)]
  /\ rotationTimer (step (run es s0) ClickPause) = Some (next_timer (run es s0)).
Proof.
  intros Hinit Hp.
  pose proof (run_timer_inv es s0 (init_timer_inv _ _ Hinit)) as Hinv.
  destruct (on_pause_spec _ Hinv) as (_ & _ & Hp' & _ & Hres).
  destruct (Hres Hp) as [Ht Hr].
  change (on_pause (run es s0)).2 with (step (run es s0) ClickPause) in *.
  rewrite Hp in Hp'. rewrite Ht. auto.
Qed.

End Rotation.

Section RotationCases.
Import Loader.

Lemma paused_rotation_shows_nothing_witness :
  init two_items = Some (boot two_items)
  /\ paused (run [] (boot two_items)) = false
  /\ Forall (fun e => passive e = true) [Wait 9000; TimerFires 1]
  /\ shown (run [Wait 9000; TimerFires 1]
              (step (run [] (boot two_items)) ClickPause)) = [0].
Proof.
  assert (Forall (fun e => passive e = true) [Wait 9000; TimerFires 1])
    as Henv by (repeat constructor).
  assert (paused (run [] (boot two_items)) = false) as Hp by reflexivity.
  split; [reflexivity|]. split; [exact Hp|]. split; [exact Henv|].
  rewrite (proj1 (proj2 (proj2 (paused_rotation_shows_nothing two_items
             (boot two_items) [] _ 1 eq_refl Hp Henv)))).
  reflexivity.
Defined.

Lemma resume_uses_next_duration_witness :
  init two_items = Some (boot two_items)
  /\ paused (run [ClickPause] (boot two_items)) = true
  /\ delay <$> timers (step (run [ClickPause] (boot two_items)) ClickPause)
     = [3000].
Proof.
  assert (paused (run [ClickPause] (boot two_items)) = true)
    as Hp by reflexivity.
  split; [reflexivity|]. split; [exact Hp|].
  rewrite (proj1 (proj2 (resume_uses_next_duration two_items
             (boot two_items) [ClickPause] eq_refl Hp))).
  reflexivity.
Defined.

(** C4 as stated fails: with modules of 5 and 3 seconds and the first one
    showing, the timer armed on resume runs 3 seconds, not the 5 of the
    module that is showing. *)
Lemma resume_not_current_duration :
  currentIndex (run [ClickPause; ClickPause] (boot two_items)) = 0
  /\ delay <$> timers (run [ClickPause; ClickPause] (boot two_items))
     <> [duration_of (current (run [ClickPause; ClickPause] (boot two_items)))
         * 1000].
Proof. split; [reflexivity|]. vm_compute. discriminate. Qed.

(** C3 on a module whose [stop] throws, and on one whose
    [updateFrequencies] throws.  The exception leaves [showIndex] and
    [rotateNext]; when the rotation timer then comes due, no new timer is
    armed and the rotation stays on the first element; the module is still
    in the list.  In the audio loop the exception leaves the callback. *)
Theorem hook_exception_escapes :
  (showIndex 1 (boot one_faulty)).1 = Exn
  /\ (rotateNext 1 (boot one_faulty)).1 = Exn
  /\ timers (run [Wait 5000; TimerFires 1] (boot one_faulty)) = []
  /\ currentIndex (run [Wait 5000; TimerFires 1] (boot one_faulty)) = 0
  /\ length (loaded (run [Wait 5000; TimerFires 1] (boot one_faulty))) = 2%nat
  /\ (AudioManager.loop AudioManager.quiet_frame AudioManager.fresh
        (Some bad_update)).1.1.1 = false.
Proof. repeat split; vm_compute; reflexivity. Qed.

End RotationCases.

(** ** Exactly one running module *)
Section OneRunning.
Import Loader.
Context {M : Type} `{Lawful M}.

Lemma alter_fixed {A} (h : A -> A) (l : list A) (i : nat) :
  (forall x, l !! i = Some x -> h x = x) -> alter h i l = l.
Proof.
  intros Hfix. apply list_eq. intros j. rewrite list_lookup_alter.
  destruct (decide (i = j)) as [->|]; [|reflexivity].
  destruct (l !! j) as [x|] eqn:E; cbn; [|reflexivity].
  now rewrite Hfix.
Qed.

Lemma fmap_alter_at {A B} (f : A -> B) (g : A -> A) (h : B -> B)
    (l : list A) (i : nat) :
  (forall x, l !! i = Some x -> f (g x) = h (f x)) ->
  f <$> alter g i l = alter h i (f <$> l).
Proof.
  intros Hcomm. apply list_eq. intros j.
  rewrite list_lookup_fmap, !list_lookup_alter.
  destruct (decide (i = j)) as [->|]; rewrite !list_lookup_fmap;
    [|reflexivity].
  destruct (l !! j) as [x|] eqn:E; cbn; [|reflexivity].
  now rewrite Hcomm.
Qed.

(** Every field but [loaded] after a hook call. *)
Lemma call_hook_control (hook : M -> option (outcome M)) (i : nat) (s : state M) :
  currentItem (call_hook hook i s).2 = currentItem s
  /\ currentIndex (call_hook hook i s).2 = currentIndex s.
Proof.
  unfold call_hook.
  destruct (loaded s !! i) as [it|]; [|auto].
  destruct (instance it) as [m|]; [|auto].
  destruct (hook m) as [[m'|m']|]; auto.
Qed.

Lemma call_stop_lawful (c : nat) (s : state M) :
  (call_hook stop c s).1 = Ok tt
  /\ obs_list (call_hook stop c s).2 = alter halted c (obs_list s).
Proof.
  unfold call_hook, obs_list.
  destruct (loaded s !! c) as [it|] eqn:Hit.
  - destruct (instance it) as [m|] eqn:Hm.
    + destruct (stop_halts m) as (m' & -> & Hrun). cbn.
      split; [reflexivity|]. apply fmap_alter_at.
      intros x Hx. unfold obs, halted, has_instance, is_running. cbn.
      rewrite Hrun. assert (x = it) as -> by congruence. now rewrite Hm.
    + cbn. split; [reflexivity|]. symmetry. apply alter_fixed.
      intros o. rewrite list_lookup_fmap, Hit. cbn. intros [= <-].
      unfold obs, halted, has_instance, is_running. now rewrite Hm.
  - cbn. split; [reflexivity|]. symmetry. apply alter_fixed.
    intros o. rewrite list_lookup_fmap, Hit. discriminate.
Qed.

Lemma call_start_lawful (i : nat) (s : state M) :
  (call_hook start i s).1 = Ok tt
  /\ obs_list (call_hook start i s).2 = alter started i (obs_list s).
Proof.
  unfold call_hook, obs_list.
  destruct (loaded s !! i) as [it|] eqn:Hit.
  - destruct (instance it) as [m|] eqn:Hm.
    + destruct (start_runs m) as (m' & -> & Hrun). cbn.
      split; [reflexivity|]. apply fmap_alter_at.
      intros x Hx. unfold obs, started, has_instance, is_running. cbn.
      rewrite Hrun. assert (x = it) as -> by congruence. now rewrite Hm.
    + cbn. split; [reflexivity|]. symmetry. apply alter_fixed.
      intros o. rewrite list_lookup_fmap, Hit. cbn. intros [= <-].
      unfold obs, started, has_instance, is_running. now rewrite Hm.
  - cbn. split; [reflexivity|]. symmetry. apply alter_fixed.
    intros o. rewrite list_lookup_fmap, Hit. discriminate.
Qed.

Lemma obs_list_hideAll (s : state M) : obs_list (hideAll s) = obs_list s.
Proof. unfold obs_list. cbn. now rewrite <- list_fmap_compose. Qed.

Lemma obs_list_show_view (i : nat) (s : state M) :
  obs_list (show_view i s) = obs_list s.
Proof. unfold obs_list. cbn. now apply fmap_alter_same. Qed.

Lemma lookupZ_of_nat (l : list (item M)) (i : nat) :
  lookupZ l (Z.of_nat i) = l !! i.
Proof.
  unfold lookupZ. destruct (Z.ltb_spec (Z.of_nat i) 0); [lia|].
  now rewrite Nat2Z.id.
Qed.

(** [showIndex] onto an existing element, with modules that honour the
    contract: it returns, the element becomes the current one, the element
    that was current is halted and the new one started. *)
Lemma showIndex_lawful (i : nat) (s : state M) :
  (i < length (loaded s))%nat ->
  (showIndex (Z.of_nat i) s).1 = Ok tt
  /\ currentItem (showIndex (Z.of_nat i) s).2 = Some i
  /\ currentIndex (showIndex (Z.of_nat i) s).2 = Z.of_nat i
  /\ obs_list (showIndex (Z.of_nat i) s).2
     = alter started i
         (match currentItem s with
          | Some c => alter halted c (obs_list s)
          | None => obs_list s
          end).
Proof.
  intros Hi. rewrite showIndex_unfold. cbn zeta.
  set (s0 := with_shown (Z.of_nat i :: shown s) s).
  change (currentItem s0) with (currentItem s).
  assert (forall s1 : state M,
    length (obs_list s1) = length (loaded s) ->
    let r := match lookupZ (loaded (hideAll s1)) (Z.of_nat i) with
       | None => (Ok tt, hideAll s1)
       | Some _ =>
          match call_hook start (Z.to_nat (Z.of_nat i))
                  (show_view (Z.to_nat (Z.of_nat i)) (hideAll s1)) with
          | (Ok _, s3) => (Ok tt, set_current (Z.to_nat (Z.of_nat i)) (Z.of_nat i) s3)
          | (Exn, s3) => (Exn, s3)
          end
       end in
    r.1 = Ok tt /\ currentItem r.2 = Some i /\ currentIndex r.2 = Z.of_nat i
    /\ obs_list r.2 = alter started i (obs_list s1)) as Hrest.
  { intros s1 Hlen. rewrite lookupZ_of_nat, Nat2Z.id.
    destruct (loaded (hideAll s1) !! i) as [it|] eqn:Hit.
    - destruct (call_start_lawful i (show_view i (hideAll s1))) as [Hok Hobs].
      rewrite obs_list_show_view, obs_list_hideAll in Hobs.
      destruct (call_hook start i _) as [[[]|] s3]; cbn [fst snd] in *;
        [|discriminate].
      cbn zeta. auto.
    - apply lookup_ge_None in Hit.
      assert (length (loaded (hideAll s1)) = length (obs_list s1)) as Hl.
      { rewrite <- obs_list_hideAll. unfold obs_list. now rewrite length_fmap. }
      lia. }
  destruct (currentItem s) as [c|].
  - destruct (call_stop_lawful c s0) as [Hok Hobs].
    destruct (call_hook stop c s0) as [[[]|] s1]; cbn [fst snd] in *;
      [|discriminate].
    change (obs_list s0) with (obs_list s) in Hobs.
    rewrite <- Hobs. apply Hrest.
    rewrite Hobs, length_alter. unfold obs_list. now rewrite length_fmap.
  - change (obs_list s) with (obs_list s0). apply (Hrest s0).
    unfold obs_list. now rewrite length_fmap.
Qed.

Lemma rot_inv_calm (s : state M) : rot_inv s -> calm s.
Proof.
  intros (c & Hc & _ & _ & Hrun) j it Hit Hr.
  rewrite (Hrun j it Hit) in Hr. apply andb_true_iff in Hr as [Hj _].
  apply bool_decide_eq_true in Hj. now subst.
Qed.

Lemma showIndex_rot_inv (i : nat) (s : state M) :
  (i < length (loaded s))%nat -> calm s ->
  (showIndex (Z.of_nat i) s).1 = Ok tt
  /\ rot_inv (showIndex (Z.of_nat i) s).2
  /\ length (loaded (showIndex (Z.of_nat i) s).2) = length (loaded s).
Proof.
  intros Hi Hcalm.
  destruct (showIndex_lawful i s Hi) as (Hok & Hci & Hcx & Hobs).
  destruct (showIndex_schedule (Z.of_nat i) s) as [Hsch _].
  assert (length (loaded (showIndex (Z.of_nat i) s).2) = length (loaded s))
    as Hlen.
  { apply (f_equal snd) in Hsch. cbn in Hsch.
    apply (f_equal length) in Hsch. now rewrite !length_fmap in Hsch. }
  split; [exact Hok|]. split; [|exact Hlen].
  exists i. split; [exact Hci|]. split; [exact Hcx|]. split; [lia|].
  intros j it' Hit'.
  assert (obs_list (showIndex (Z.of_nat i) s).2 !! j = Some (obs it')) as Ho.
  { unfold obs_list. now rewrite list_lookup_fmap, Hit'. }
  rewrite Hobs in Ho. clear Hobs.
  assert (forall it, loaded s !! j = Some it -> currentItem s <> Some j ->
                     is_running it = false) as Hquiet.
  { intros it Hit Hne. destruct (is_running it) eqn:Hr; [|reflexivity].
    now specialize (Hcalm j it Hit Hr). }
  rewrite list_lookup_alter in Ho.
  destruct (decide (i = j)) as [->|Hne].
  - rewrite bool_decide_eq_true_2 by reflexivity. cbn.
    apply fmap_Some in Ho as (o & _ & Ho).
    unfold started, obs in Ho. congruence.
  - rewrite bool_decide_eq_false_2 by congruence. cbn.
    destruct (currentItem s) as [c|] eqn:Hcur.
    + rewrite list_lookup_alter in Ho.
      destruct (decide (c = j)) as [->|Hne'].
      * apply fmap_Some in Ho as (o & _ & Ho).
        unfold halted, obs in Ho. congruence.
      * unfold obs_list in Ho. rewrite list_lookup_fmap in Ho.
        destruct (loaded s !! j) as [it|] eqn:Hit; [|discriminate].
        cbn in Ho. unfold obs in Ho.
        assert (is_running it = false) by (apply Hquiet; congruence).
        congruence.
    + unfold obs_list in Ho. rewrite list_lookup_fmap in Ho.
      destruct (loaded s !! j) as [it|] eqn:Hit; [|discriminate].
      cbn in Ho. unfold obs in Ho.
      assert (is_running it = false) by (apply Hquiet; congruence).
      congruence.
Qed.

(** [rot_inv] looks at the elements and the current position only. *)
Lemma rot_inv_ext (s s' : state M) :
  loaded s' = loaded s -> currentItem s' = currentItem s ->
  currentIndex s' = currentIndex s -> rot_inv s -> rot_inv s'.
Proof. unfold rot_inv. intros -> -> ->. auto. Qed.

Lemma rem_in_range (c k n : Z) :
  0 <= c < n -> - n <= k -> 0 <= Z.rem (c + k + n) n < n.
Proof.
  intros Hc Hk. rewrite Z.rem_mod_nonneg by lia. apply Z.mod_pos_bound. lia.
Qed.

Lemma rotateNext_rot_inv (k : Z) (s : state M) :
  rot_inv s -> - Z.of_nat (length (loaded s)) <= k ->
  rot_inv (rotateNext k s).2
  /\ length (loaded (rotateNext k s).2) = length (loaded s).
Proof.
  intros Hinv Hk. rewrite rotateNext_unfold. cbn zeta.
  pose proof (rot_inv_calm s Hinv) as Hcalm.
  destruct Hinv as (c & Hc & Hcx & Hlt & Hrun).
  set (next := Z.rem _ _).
  assert (0 <= next < Z.of_nat (length (loaded s))) as Hnext.
  { subst next. rewrite Hcx. apply rem_in_range; lia. }
  assert (next = Z.of_nat (Z.to_nat next)) as Hnat by lia.
  rewrite Hnat.
  destruct (showIndex_rot_inv (Z.to_nat next) s) as (Hok & Hinv' & Hlen);
    [lia|exact Hcalm|].
  destruct (showIndex _ s) as [[[]|] s1]; cbn [fst snd] in *; [|discriminate].
  destruct (clearTimeout_other (rotationTimer s1) s1)
    as (_ & _ & _ & Hl & _ & Hx).
  assert (currentItem (clearTimeout (rotationTimer s1) s1) = currentItem s1)
    as Hci by (destruct (rotationTimer s1); reflexivity).
  destruct (paused s1); cbn [snd]; (split; [|cbn; congruence]);
    (eapply rot_inv_ext; [| | |exact Hinv']); cbn; congruence.
Qed.

Lemma step_rot_inv (n : nat) (s : state M) (e : event) :
  rot_inv s -> length (loaded s) = n -> targets_entry n e ->
  rot_inv (step s e) /\ length (loaded (step s e)) = n.
Proof.
  intros Hinv Hlen Hvalid.
  assert (1 <= n)%nat as Hpos.
  { destruct Hinv as (c & _ & _ & Hlt & _). lia. }
  destruct e as [| | |k|index|ms|h]; unfold step; cbn [handler].
  - unfold on_prev, mbind, js_bind, modify. cbn.
    destruct (rotateNext_rot_inv (-1) (with_paused false s)) as [Hi Hl];
      [exact Hinv|cbn; lia|]. split; [exact Hi|]. cbn in Hl. congruence.
  - unfold on_next, mbind, js_bind, modify. cbn.
    destruct (rotateNext_rot_inv 1 (with_paused false s)) as [Hi Hl];
      [exact Hinv|cbn; lia|]. split; [exact Hi|]. cbn in Hl. congruence.
  - unfold on_pause, mbind, js_bind, get, modify. cbn.
    destruct (negb (paused s)); cbn;
      (split; [|destruct (rotationTimer s); cbn; congruence]);
      (eapply rot_inv_ext; [| | |exact Hinv]);
      destruct (rotationTimer s); reflexivity.
  - cbn in Hvalid. destruct (rotateNext_rot_inv k s) as [Hi Hl];
      [exact Hinv|lia|]. split; [exact Hi|congruence].
  - cbn in Hvalid.
    assert (index = Z.of_nat (Z.to_nat index)) as -> by lia.
    destruct (showIndex_rot_inv (Z.to_nat index) s) as (_ & Hi & Hl);
      [lia|now apply rot_inv_calm|]. split; [exact Hi|congruence].
  - cbn. split; [|exact Hlen]. eapply rot_inv_ext; [| | |exact Hinv]; reflexivity.
  - unfold on_timer, mbind, js_bind, get, modify. cbn.
    destruct (bool_decide _); cbn; [|auto].
    destruct (rotateNext_rot_inv 1 (clearTimeout (Some h) s)) as [Hi Hl];
      [eapply rot_inv_ext; [| | |exact Hinv]; reflexivity|cbn; lia|].
    split; [exact Hi|]. cbn in Hl. congruence.
Qed.

Lemma run_rot_inv (n : nat) (es : list event) :
  forall s : state M,
    rot_inv s -> length (loaded s) = n -> Forall (targets_entry n) es ->
    rot_inv (run es s).
Proof.
  induction es as [|e es IH]; intros s Hinv Hlen Hall; [exact Hinv|].
  apply Forall_cons in Hall as [He Hall].
  destruct (step_rot_inv n s e Hinv Hlen He) as [Hi Hl].
  exact (IH (step s e) Hi Hl Hall).
Qed.

Lemma init_rot_inv (items : list (item M)) (s0 : state M) :
  init items = Some s0 ->
  Forall (fun it => is_running it = false) items ->
  rot_inv s0 /\ length (loaded s0) = length items.
Proof.
  destruct items as [|it items]; [discriminate|]. intros [= <-] Hquiet.
  set (s := initial (it :: items)).
  assert (calm s) as Hcalm.
  { intros j x Hx Hr. subst s. cbn in Hx.
    rewrite Forall_lookup in Hquiet. specialize (Hquiet j x Hx). congruence. }
  destruct (showIndex_rot_inv 0 s) as (Hok & Hinv & Hlen);
    [cbn; lia|exact Hcalm|].
  unfold boot, startup, mbind, js_bind, get, modify. fold s.
  change (Z.of_nat 0) with 0 in *.
  destruct (showIndex 0 s) as [[[]|] s1]; cbn [fst snd] in *; [|discriminate].
  cbn. split; [|exact Hlen].
  eapply rot_inv_ext; [| | |exact Hinv]; reflexivity.
Qed.

Lemma filter_none_running (l : list (item M)) :
  (forall j it, l !! j = Some it -> is_running it = false) ->
  filter (fun it => is_running it = true) l = [].
Proof.
  induction l as [|x l IH]; intros Hall; [reflexivity|].
  rewrite filter_cons. pose proof (Hall 0%nat x eq_refl) as Hx.
  destruct (decide (is_running x = true)); [congruence|].
  apply IH. intros j it Hit. exact (Hall (S j) it Hit).
Qed.

Lemma count_running (l : list (item M)) :
  forall c : nat,
    (forall j it, l !! j = Some it ->
                  is_running it = bool_decide (j = c) && has_instance it) ->
    length (filter (fun it => is_running it = true) l)
    = match l !! c with
      | Some it => if has_instance it then 1%nat else 0%nat
      | None => 0%nat
      end.
Proof.
  induction l as [|x l IH]; intros c Hall; [reflexivity|].
  rewrite filter_cons. pose proof (Hall 0%nat x eq_refl) as Hx.
  destruct c as [|c].
  - rewrite bool_decide_eq_true_2 in Hx by reflexivity. cbn in Hx. cbn.
    rewrite filter_none_running.
    + rewrite Hx. destruct (has_instance x);
        destruct (decide (_ = true)); cbn; congruence.
    + intros j it Hit. rewrite (Hall (S j) it Hit).
      now rewrite bool_decide_eq_false_2 by lia.
  - rewrite bool_decide_eq_false_2 in Hx by lia. cbn in Hx.
    destruct (decide (is_running x = true)); [congruence|].
    cbn. apply IH. intros j it Hit. rewrite (Hall (S j) it Hit).
    f_equal. apply bool_decide_ext. lia.
Qed.

(** C2, as the code has it.  With at least one loaded entry and modules
    that honour the contract, none running when the rotation starts, then
    after any sequence of clicks, timer firings, [rotateNext] and
    [showIndex] calls onto existing entries, the number of running module
    instances is 1 when the current entry has an instance and 0 when its
    instance is null; it is never more than 1. *)
Theorem one_running_iff_instance (items : list (item M)) (s0 : state M)
    (es : list event) :
  init items = Some s0 ->
  Forall (fun it => is_running it = false) items ->
  Forall (targets_entry (length items)) es ->
  running_count (run es s0)
  = match current (run es s0) with
    | Some it => if has_instance it then 1%nat else 0%nat
    | None => 0%nat
    end
  /\ is_Some (current (run es s0))
  /\ (running_count (run es s0) <= 1)%nat.
Proof.
  intros Hinit Hquiet Hvalid.
  destruct (init_rot_inv items s0 Hinit Hquiet) as [Hinv Hlen].
  pose proof (run_rot_inv _ es s0 Hinv Hlen Hvalid) as (c & _ & Hcx & Hlt & Hrun).
  unfold running_count, current. rewrite Hcx, lookupZ_of_nat.
  rewrite (count_running _ c Hrun).
  destruct (lookup_lt_is_Some_2 _ _ Hlt) as [it Hit]. rewrite Hit.
  split; [reflexivity|]. split; [eauto|].
  destruct (has_instance it); lia.
Qed.

End OneRunning.

Section OneRunningCases.
Import Loader.

Lemma one_running_iff_instance_witness :
  init two_items = Some (boot two_items)
  /\ Forall (fun it => is_running it = false) two_items
  /\ Forall (targets_entry (length two_items))
       [ClickNext; ClickPause; CallShowIndex 0]
  /\ running_count
       (run [ClickNext; ClickPause; CallShowIndex 0] (boot two_items)) = 1%nat.
Proof.
  assert (Forall (fun it => is_running it = false) two_items) as Hq
    by (repeat constructor).
  assert (Forall (targets_entry (length two_items))
            [ClickNext; ClickPause; CallShowIndex 0]) as Hv
    by (repeat constructor; cbn; lia).
  split; [reflexivity|]. split; [exact Hq|]. split; [exact Hv|].
  rewrite (proj1 (one_running_iff_instance two_items (boot two_items)
                    _ eq_refl Hq Hv)).
  reflexivity.
Defined.

(** C2 as stated fails: when the rotation moves onto an entry whose
    instance is null, the module that was running is stopped and none is
    started. *)
Lemma none_running_on_bare_entry :
  init one_bare = Some (boot one_bare)
  /\ currentIndex (run [ClickNext] (boot one_bare)) = 1
  /\ running_count (run [ClickNext] (boot one_bare)) <> 1%nat.
Proof.
  split; [reflexivity|]. split; [reflexivity|]. vm_compute. discriminate.
Qed.

End OneRunningCases.

(** ** Band extractor: bounds and ranges *)
Section BandExtractorMore.
Import AudioManager.

Lemma Zsum_bounds (lo hi : Z) (l : list Z) :
  Forall (fun x => lo <= x <= hi) l ->
  lo * Z.of_nat (length l) <= Zsum l <= hi * Z.of_nat (length l).
Proof.
  induction 1 as [|x l Hx _ IH]; cbn [length]; [cbn; lia|].
  change (Zsum (x :: l)) with (x + Zsum l). lia.
Qed.

Lemma mean_bounds (lo hi : Z) (l : list Z) :
  l <> [] -> Forall (fun x => lo <= x <= hi) l ->
  (inject_Z lo <= mean l <= inject_Z hi)%Q.
Proof.
  intros Hne Hall. destruct l as [|x l]; [congruence|].
  pose proof (Zsum_bounds lo hi _ Hall) as [Hlo Hhi].
  unfold mean.
  assert (0 < inject_Z (Z.of_nat (length (x :: l))))%Q as Hpos.
  { change 0%Q with (inject_Z 0). rewrite <- Zlt_Qlt. cbn [length]. lia. }
  split.
  - apply Qle_shift_div_l; [exact Hpos|].
    rewrite <- inject_Z_mult, <- Zle_Qle. exact Hlo.
  - apply Qle_shift_div_r; [exact Hpos|].
    rewrite <- inject_Z_mult, <- Zle_Qle. exact Hhi.
Qed.

Lemma defined_entries_bounds (lo hi : Z) (array : list (option Z)) (s e : Z) :
  Forall (fun o => forall x, o = Some x -> lo <= x <= hi) array ->
  Forall (fun x => lo <= x <= hi) (defined_entries array s e).
Proof.
  intros Hall. unfold defined_entries. apply Forall_forall. intros x Hx.
  apply list_elem_of_omap in Hx as (i & _ & Hi).
  unfold js_index in Hi. destruct (i <? 0); [discriminate|].
  destruct (array !! Z.to_nat i) as [o|] eqn:E; [|discriminate].
  cbn in Hi. subst o. rewrite Forall_lookup in Hall. eauto.
Qed.

(** X1.  The average of entries between 0 and [hi] is between 0 and [hi]: for
    the analyser's bytes, between 0 and 255. *)
Theorem getAverageVolume_bounds (hi : Z) (array : list (option Z)) (s e : Z) :
  0 <= hi ->
  Forall (fun o => forall x, o = Some x -> 0 <= x <= hi) array ->
  (0 <= getAverageVolume array s e <= inject_Z hi)%Q.
Proof.
  intros Hhi Hall. rewrite getAverageVolume_eq_mean.
  destruct (defined_entries array s e) as [|x l] eqn:E.
  - cbn. split; [apply Qle_refl|].
    change 0%Q with (inject_Z 0). now rewrite <- Zle_Qle.
  - rewrite <- E. apply (mean_bounds 0 hi); [congruence|].
    now apply defined_entries_bounds.
Qed.

Lemma getAverageVolume_bounds_witness :
  0 <= 255
  /\ Forall (fun o => forall x, o = Some x -> 0 <= x <= 255) [Some 255; Some 0; None]
  /\ Qle (getAverageVolume [Some 255; Some 0; None] 0 3) (inject_Z 255).
Proof.
  assert (Forall (fun o => forall x, o = Some x -> 0 <= x <= 255)
            [Some 255; Some 0; None]) as Hall.
  { repeat (apply List.Forall_cons;
              [intros x Hx; try discriminate; injection Hx as <-; lia|]).
    apply List.Forall_nil. }
  split; [lia|]. split; [exact Hall|].
  apply (getAverageVolume_bounds 255 _ 0 3); [lia|exact Hall].
Defined.

Lemma omap_seqZ_none {A} (f : Z -> option A) (s len : Z) :
  (forall i, s <= i < s + len -> f i = None) -> omap f (seqZ s len) = [].
Proof.
  intros Hnone. destruct (omap f (seqZ s len)) as [|x l] eqn:E; [reflexivity|].
  assert (x ∈ omap f (seqZ s len)) as Hx by (rewrite E; left).
  apply list_elem_of_omap in Hx as (i & Hi & Hfi).
  apply elem_of_seqZ in Hi. rewrite Hnone in Hfi by lia. discriminate.
Qed.

Lemma js_index_outside {A} (array : list (option A)) (i : Z) :
  i < 0 \/ Z.of_nat (length array) <= i -> js_index array i = None.
Proof.
  unfold js_index. intros [Hneg|Hbig].
  - destruct (Z.ltb_spec i 0); [reflexivity|lia].
  - destruct (Z.ltb_spec i 0); [reflexivity|].
    rewrite lookup_ge_None_2 by lia. reflexivity.
Qed.

Lemma defined_entries_split (array : list (option Z)) (s m e : Z) :
  s <= m <= e ->
  defined_entries array s e = defined_entries array s m ++ defined_entries array m e.
Proof.
  intros Hm. unfold defined_entries.
  replace (e - s) with ((m - s) + (e - m)) by lia.
  rewrite seqZ_app by lia. rewrite omap_app.
  replace (s + (m - s)) with m by lia. reflexivity.
Qed.

Lemma defined_entries_outside (array : list (option Z)) (s e : Z) :
  e <= 0 \/ Z.of_nat (length array) <= s \/ e <= s \/ length array = 0%nat ->
  defined_entries array s e = [].
Proof.
  intros H. unfold defined_entries. apply omap_seqZ_none.
  intros i Hi. apply js_index_outside. lia.
Qed.

(** X2.  Bins outside the array are left out of the average, not counted as
    zeros: the range may be cut to the array. *)
Theorem getAverageVolume_clips_range (array : list (option Z)) (s e : Z) :
  getAverageVolume array s e
  = getAverageVolume array (Z.max s 0) (Z.min e (Z.of_nat (length array))).
Proof.
  rewrite !getAverageVolume_eq_mean. f_equal.
  pose proof (Nat2Z.is_nonneg (length array)) as Hn.
  destruct (Z.le_gt_cases (Z.min e (Z.of_nat (length array))) (Z.max s 0))
    as [Hempty|Hin].
  - rewrite (defined_entries_outside array (Z.max s 0)) by lia.
    apply defined_entries_outside. lia.
  - rewrite (defined_entries_split array s (Z.max s 0) e) by lia.
    rewrite (defined_entries_split array (Z.max s 0)
               (Z.min e (Z.of_nat (length array))) e) by lia.
    rewrite (defined_entries_outside array s (Z.max s 0)) by lia.
    rewrite (defined_entries_outside array _ e) by lia.
    now rewrite app_nil_r.
Qed.
End BandExtractorMore.

(** ** Frame normalizer: what the clamp does and does not change *)
Section FrameNormalizerMore.
Import AudioManager.

Lemma clamp_id (v : Q) : (0 <= v)%Q -> (v <= 100)%Q -> clamp v == v.
Proof.
  intros H0 H100. unfold clamp.
  rewrite (Q.max_r 0 v) by exact H0. now apply Q.min_r.
Qed.

Lemma clamp_mono (v v' : Q) : (v <= v')%Q -> (clamp v <= clamp v')%Q.
Proof.
  intros Hle. unfold clamp.
  apply Q.min_le_compat_l, Q.max_le_compat_l, Hle.
Qed.

Lemma floor_clamp_integer (n : Z) : in_bounds n -> Qfloor (clamp (inject_Z n)) = n.
Proof.
  intros [H0 H100]. rewrite <- (Qfloor_Z n) at 2. apply Qfloor_comp, clamp_id.
  - change 0%Q with (inject_Z 0). now rewrite <- Zle_Qle.
  - change 100%Q with (inject_Z 100). now rewrite <- Zle_Qle.
Qed.

(** X3.  Band values that are already integers between 0 and 100 go through
    the normalizer unchanged. *)
Theorem deliver_fixes_in_range (l m h : Z) :
  in_bounds l -> in_bounds m -> in_bounds h ->
  deliver (inject_Z l) (inject_Z m) (inject_Z h) = (l, m, h).
Proof.
  intros Hl Hm Hh. unfold deliver. cbn zeta.
  now rewrite !floor_clamp_integer.
Qed.

Lemma deliver_fixes_in_range_witness :
  in_bounds 0 /\ in_bounds 37 /\ in_bounds 100
  /\ deliver (inject_Z 0) (inject_Z 37) (inject_Z 100) = (0, 37, 100).
Proof.
  assert (in_bounds 0 /\ in_bounds 37 /\ in_bounds 100) as (H0 & H37 & H100)
    by (unfold in_bounds; lia).
  split; [exact H0|]. split; [exact H37|]. split; [exact H100|].
  exact (deliver_fixes_in_range 0 37 100 H0 H37 H100).
Defined.

(** X4.  The normalizer keeps the order of raw values, band by band, and
    saturates: 100 and above gives 100, 0 and below gives 0. *)
Theorem deliver_monotone_saturating (lo mi hi lo' mi' hi' : Q) :
  (lo <= lo')%Q -> (mi <= mi')%Q -> (hi <= hi')%Q ->
  ((deliver lo mi hi).1.1 <= (deliver lo' mi' hi').1.1
   /\ (deliver lo mi hi).1.2 <= (deliver lo' mi' hi').1.2
   /\ (deliver lo mi hi).2 <= (deliver lo' mi' hi').2)
  /\ ((100 <= lo)%Q -> (deliver lo mi hi).1.1 = 100)
  /\ ((100 <= mi)%Q -> (deliver lo mi hi).1.2 = 100)
  /\ ((100 <= hi)%Q -> (deliver lo mi hi).2 = 100)
  /\ ((lo' <= 0)%Q -> (deliver lo' mi' hi').1.1 = 0)
  /\ ((mi' <= 0)%Q -> (deliver lo' mi' hi').1.2 = 0)
  /\ ((hi' <= 0)%Q -> (deliver lo' mi' hi').2 = 0).
Proof.
  intros Hlo Hmi Hhi. unfold deliver. cbn.
  assert (forall v, (100 <= v)%Q -> Qfloor (clamp v) = 100) as Htop.
  { intros v Hv. change (Qfloor (clamp v) = Qfloor 100). apply Qfloor_comp.
    unfold clamp. apply Q.min_l. apply Qle_trans with v; [exact Hv|].
    apply Q.le_max_r. }
  assert (forall v, (v <= 0)%Q -> Qfloor (clamp v) = 0) as Hbot.
  { intros v Hv. change (Qfloor (clamp v) = Qfloor 0). apply Qfloor_comp.
    unfold clamp. rewrite (Q.max_l 0 v) by exact Hv. now apply Q.min_r. }
  repeat split; auto using Qfloor_resp_le, clamp_mono.
Qed.

Lemma deliver_monotone_saturating_witness :
  (3 # 2 <= 120)%Q /\ (-(1) <= 0)%Q /\ (50 <= 50)%Q
  /\ (deliver (3 # 2) (-(1)) 50).1.1 <= (deliver 120 0 50).1.1
  /\ (deliver 120 0 50).1.1 = 100.
Proof.
  assert ((3 # 2 <= 120)%Q /\ (-(1) <= 0)%Q /\ (50 <= 50)%Q) as (H1 & H2 & H3)
    by (repeat split; discriminate).
  split; [exact H1|]. split; [exact H2|]. split; [exact H3|].
  split.
  - apply (deliver_monotone_saturating _ _ _ _ _ _ H1 H2 H3).
  - reflexivity.
Defined.



Section WithModule.
Context {M : Type} `{Animation M}.


End WithModule.




End FrameNormalizerMore.

(** ** Signal source switch: modes, context and sources *)
Section SourceSwitchMore.
Import AudioManager.

(** X7.  Of two [setTestMode] calls in a row the last one decides: the
    context ends up suspended for test mode and running otherwise, as after
    the last call alone, and nothing else differs. *)
Theorem setTestMode_last_wins (b b' : bool) (a : t) :
  setTestMode b (setTestMode b' a) = setTestMode b a.
Proof.
  destruct a as [ctx src st da live_ test raf].
  unfold setTestMode. cbn.
  destruct ctx as [[]|], b, b'; reflexivity.
Qed.

Lemma setTestMode_fields (b : bool) (a : t) :
  isTestMode (setTestMode b a) = b
  /\ isLive (setTestMode b a) = isLive a
  /\ source (setTestMode b a) = source a
  /\ stream (setTestMode b a) = stream a
  /\ (is_Some (audioCtx (setTestMode b a)) <-> is_Some (audioCtx a))
  /\ (b = false -> audioCtx (setTestMode b a) <> Some ctx_suspended).
Proof.
  destruct a as [ctx src st da live_ test raf].
  unfold setTestMode. cbn.
  destruct ctx as [[]|], b; cbn; repeat split; auto; try discriminate;
    intros [x Hx]; eauto; discriminate.
Qed.

Lemma setTestMode_ctx_inv (b : bool) (a : t) :
  ctx_inv a -> ctx_inv (setTestMode b a).
Proof.
  intros [Hlive Htest].
  destruct (setTestMode_fields b a) as (Ht & Hl & _ & Hs & Hc & Hrun).
  split.
  - rewrite Hl, Hs. intros Hon. destruct (Hlive Hon) as [H1 H2].
    split; [now apply Hc|exact H2].
  - rewrite Ht. exact Hrun.
Qed.

Lemma enableLiveInput_ctx_inv (granted : bool) (w : world) :
  ctx_inv w.1 -> ctx_inv (enableLiveInput granted w).2.1.
Proof.
  destruct w as [[ctx src st da live_ test raf] [hd ns cn rq nr tk]].
  unfold ctx_inv, enableLiveInput, enableLiveInput_request,
    enableLiveInput_settle. cbn.
  intros [Hlive Htest].
  destruct ctx as [[]|], st, src, granted; cbn; (split; [intros Hon|intros Hoff]);
    try (split; eauto; fail); try discriminate;
    try (now apply Hlive); try (now apply Htest);
    destruct (Hlive Hon) as [[? ?] [? ?]]; discriminate.
Qed.

Lemma enableLiveInput_one_source (granted : bool) (w : world) :
  one_source w -> one_source (enableLiveInput granted w).2.
Proof.
  destruct w as [[ctx src st da live_ test raf] [hd ns cn rq nr tk]].
  unfold one_source, enableLiveInput, enableLiveInput_request,
    enableLiveInput_settle. cbn.
  intros [->|(s & -> & ->)].
  - destruct ctx as [[]|], st, src, granted; cbn; eauto.
  - destruct ctx as [[]|], st, granted; cbn;
      destruct (decide (s <> s)); try congruence; eauto.
Qed.

Lemma enableLiveInput_isLive (granted : bool) (w : world) :
  isLive w.1 = true -> isLive (enableLiveInput granted w).2.1 = true.
Proof.
  destruct w as [[ctx src st da live_ test raf] [hd ns cn rq nr tk]].
  unfold enableLiveInput, enableLiveInput_request, enableLiveInput_settle.
  cbn. intros ->. destruct ctx as [[]|], st, src, granted; reflexivity.
Qed.

(** After a granted request the manager is live and out of test mode, its
    context runs, and the new stream is the one it names, holds and feeds
    to the analyser; a stream it held before is released. *)
Lemma enableLiveInput_granted_spec (w : world) :
  one_handle w -> one_source w ->
  (enableLiveInput true w).1 = true
  /\ isLive (enableLiveInput true w).2.1 = true
  /\ isTestMode (enableLiveInput true w).2.1 = false
  /\ audioCtx (enableLiveInput true w).2.1 = Some ctx_running
  /\ stream (enableLiveInput true w).2.1 = Some (next_stream w.2)
  /\ source (enableLiveInput true w).2.1 = Some (next_stream w.2)
  /\ held (enableLiveInput true w).2.2 = [next_stream w.2]
  /\ connected (enableLiveInput true w).2.2 = [next_stream w.2].
Proof.
  destruct w as [[ctx src st da live_ test raf] [hd ns cn rq nr tk]].
  unfold one_handle, one_source, enableLiveInput, enableLiveInput_request,
    enableLiveInput_settle. cbn.
  intros [->|(s & -> & ->)] [->|(s' & -> & ->)];
    destruct ctx as [[]|];
    repeat match goal with o : option positive |- _ => destruct o end;
    cbn;
    repeat match goal with
           | |- context [decide (?x <> ?x)] =>
               destruct (decide (x <> x)); [congruence|]
           end;
    cbn; repeat split; reflexivity.
Qed.

Section WithModule.
Context {M : Type} `{Animation M}.

Lemma loop_keeps_manager (inp : frame_input) (w : world) (cur : option M) :
  isLive (loop inp w cur).1.2.1 = isLive w.1
  /\ isTestMode (loop inp w cur).1.2.1 = isTestMode w.1
  /\ audioCtx (loop inp w cur).1.2.1 = audioCtx w.1
  /\ stream (loop inp w cur).1.2.1 = stream w.1
  /\ source (loop inp w cur).1.2.1 = source w.1
  /\ connected (loop inp w cur).1.2.2 = connected w.2.
Proof.
  destruct w as [a b]. unfold loop.
  destruct (isTestMode _ || negb (isLive _)).
  - destruct (synthetic_bands (rnd inp)) as [[low mid] high].
    destruct (deliver low mid high) as [[l' m'] h'].
    destruct cur as [anim|]; [|cbn; auto 6].
    destruct (updateFrequencies l' m' h' anim) as [[?|?]|]; cbn; auto 6.
  - destruct (live_bands _) as [[low mid] high].
    destruct (deliver low mid high) as [[l' m'] h'].
    destruct cur as [anim|]; [|cbn; auto 6].
    destruct (updateFrequencies l' m' h' anim) as [[?|?]|]; cbn; auto 6.
Qed.

Lemma frame_keeps_manager (inp : frame_input) (w : world) (cur : option M) :
  isLive (frame inp w cur).1.1 = isLive w.1
  /\ isTestMode (frame inp w cur).1.1 = isTestMode w.1
  /\ audioCtx (frame inp w cur).1.1 = audioCtx w.1
  /\ stream (frame inp w cur).1.1 = stream w.1
  /\ source (frame inp w cur).1.1 = source w.1
  /\ connected (frame inp w cur).1.2 = connected w.2.
Proof.
  destruct w as [a b]. unfold frame.
  change (connected (a, b).2) with (connected (a, with_raf_queue [] b).2).
  change ((a, b).1) with ((a, with_raf_queue [] b).1).
  generalize (a, with_raf_queue [] b) as w. generalize (raf_queue b) as q.
  clear a b. intros q. revert cur.
  induction q as [|x q IH]; intros cur w; [cbn; auto 6|].
  cbn [foldl fst snd].
  destruct (loop_keeps_manager inp w cur) as (H1 & H2 & H3 & H4 & H5 & H6).
  destruct (loop inp w cur) as [[[ok d] w'] cur']. cbn [fst snd] in *.
  rewrite <- H1, <- H2, <- H3, <- H4, <- H5, <- H6. exact (IH cur' w').
Qed.

Lemma step_source_inv (w : world) (e : event (M:=M)) :
  ctx_inv w.1 /\ one_source w ->
  ctx_inv (step w e).1 /\ one_source (step w e).
Proof.
  intros [Hctx Hsrc]. destruct e as [inp cur|enabled|granted]; cbn [step].
  - destruct (frame_keeps_manager inp w cur) as (H1 & H2 & H3 & H4 & H5 & H6).
    unfold ctx_inv, one_source in *. rewrite H1, H2, H3, H4, H5, H6. auto.
  - split; [now apply setTestMode_ctx_inv|].
    unfold one_source in *. cbn.
    destruct (setTestMode_fields enabled w.1) as (_ & _ & -> & _). exact Hsrc.
  - split; [now apply enableLiveInput_ctx_inv|now apply enableLiveInput_one_source].
Qed.

Lemma run_source_inv (es : list (event (M:=M))) :
  forall w, ctx_inv w.1 /\ one_source w ->
            ctx_inv (run es w).1 /\ one_source (run es w).
Proof.
  induction es as [|e es IH]; intros w Hw; [exact Hw|].
  apply (IH (step w e)), step_source_inv, Hw.
Qed.

Lemma step_isLive (w : world) (e : event (M:=M)) :
  isLive w.1 = true -> isLive (step w e).1 = true.
Proof.
  intros Hl. destruct e as [inp cur|enabled|granted]; cbn [step].
  - destruct (frame_keeps_manager inp w cur) as (-> & _). exact Hl.
  - cbn. destruct (setTestMode_fields enabled w.1) as (_ & -> & _). exact Hl.
  - now apply enableLiveInput_isLive.
Qed.

(** X8.  Whenever a tick takes the live branch, the analyser it reads exists
    and its context is running, and the manager has a stream: the loop
    never reads a missing or suspended analyser, whatever happened
    before. *)
Theorem live_branch_reads_running_context (es : list (event (M:=M))) :
  isTestMode (run es fresh).1 || negb (isLive (run es fresh).1) = false ->
  audioCtx (run es fresh).1 = Some ctx_running
  /\ is_Some (stream (run es fresh).1).
Proof.
  intros Hmode. apply orb_false_iff in Hmode as [Htest Hlive].
  apply negb_false_iff in Hlive.
  destruct (run_source_inv es fresh) as [[Hl Ht] _].
  { split; [split; [discriminate|discriminate]|now left]. }
  destruct (Hl Hlive) as [[c Hc] Hs]. specialize (Ht Htest).
  split; [|exact Hs]. rewrite Hc in *. destruct c; congruence.
Qed.

(** X9.  Live capture is never switched off: once the manager is live it stays
    live through test-mode toggles, frames and further requests, granted
    or refused. *)
Theorem live_is_never_switched_off (es : list (event (M:=M))) (w : world) :
  isLive w.1 = true -> isLive (run es w).1 = true.
Proof.
  revert w. induction es as [|e es IH]; intros w Hl; [exact Hl|].
  apply (IH (step w e)), step_isLive, Hl.
Qed.

(** X10.  At most one source node feeds the analyser at any time, and a granted
    request leaves exactly the new stream named, held and connected. *)
Theorem one_source_feeds_analyser (es : list (event (M:=M))) :
  (length (connected (run es fresh).2) <= 1)%nat
  /\ stream (step (run es fresh) (EnableLiveInput true)).1
     = Some (next_stream (run es fresh).2)
  /\ source (step (run es fresh) (EnableLiveInput true)).1
     = Some (next_stream (run es fresh).2)
  /\ held (step (run es fresh) (EnableLiveInput true)).2
     = [next_stream (run es fresh).2]
  /\ connected (step (run es fresh) (EnableLiveInput true)).2
     = [next_stream (run es fresh).2].
Proof.
  destruct (run_source_inv es fresh) as [_ Hsrc].
  { split; [split; [discriminate|discriminate]|now left]. }
  assert (one_handle (run es fresh)) as Hh
    by (apply run_one_handle; now left).
  destruct (enableLiveInput_granted_spec _ Hh Hsrc)
    as (_ & _ & _ & _ & Hst & Hso & Hhe & Hco).
  split; [destruct Hsrc as [->|(s & _ & ->)]; cbn; lia|].
  cbn [step]. auto.
Qed.
End WithModule.

Lemma live_branch_reads_running_context_witness :
  isTestMode (run (M:=Scripted.t)
                [EnableLiveInput true; SetTestMode true; SetTestMode false]
                fresh).1
  || negb (isLive (run (M:=Scripted.t)
                     [EnableLiveInput true; SetTestMode true; SetTestMode false]
                     fresh).1) = false
  /\ audioCtx (run (M:=Scripted.t)
                 [EnableLiveInput true; SetTestMode true; SetTestMode false]
                 fresh).1 = Some ctx_running.
Proof.
  split; [reflexivity|].
  apply (live_branch_reads_running_context (M:=Scripted.t)
           [EnableLiveInput true; SetTestMode true; SetTestMode false]).
  reflexivity.
Defined.

Lemma live_is_never_switched_off_witness :
  isLive live.1 = true
  /\ isLive (run (M:=Scripted.t)
               [SetTestMode true; EnableLiveInput false;
                Frame quiet_frame (Some sound)] live).1 = true.
Proof.
  split; [reflexivity|].
  apply (live_is_never_switched_off (M:=Scripted.t)). reflexivity.
Defined.
End SourceSwitchMore.

(** ** Module lifecycle: any sequence of calls, frames and resizes *)
Section TemplateLifecycleMore.
Import TemplateAnimation.

Lemma on_resize_keeps_frame (a : t) :
  frameId (on_resize a) = frameId a /\ callbacks (on_resize a) = callbacks a
  /\ bands (on_resize a) = bands a.
Proof.
  unfold on_resize, bands.
  assert (bands (resize a) = bands a) as Hb.
  { unfold resize, bands. destruct (rect a) as [w h].
    destruct ((w <=? 2) || (h <=? 2)); reflexivity. }
  destruct (resize_keeps_frame a) as (Hf & Hc & _).
  unfold bands in Hb.
  destruct (negb (initialized (resize a)) && _ && _); cbn; auto.
Qed.

Lemma apply_consistent (a : t) (o : op) : consistent a -> consistent (apply a o).
Proof.
  intros Hc. destruct o as [| |l m h| | |r]; cbn [apply].
  - now apply consistent_start.
  - now apply consistent_stop.
  - exact Hc.
  - now apply consistent_animation_frame.
  - unfold consistent. destruct (on_resize_keeps_frame a) as (-> & -> & _).
    exact Hc.
  - exact Hc.
Qed.

Lemma run_consistent (ops : list op) :
  forall a, consistent a -> consistent (run ops a).
Proof.
  induction ops as [|o ops IH]; intros a Hc; [exact Hc|].
  apply (IH (apply a o)), apply_consistent, Hc.
Qed.

(** X11.  From the constructor on, whatever is called and whatever the browser
    does, the instance has at most one draw callback registered, the one
    [frameId] names: it is running exactly when it has one. *)
Theorem template_never_doubles_its_loop (ops : list op) (r : Z * Z) :
  consistent (run ops (create r))
  /\ (length (callbacks (run ops (create r))) <= 1)%nat
  /\ (running (run ops (create r)) = true
      <-> length (callbacks (run ops (create r))) = 1%nat).
Proof.
  pose proof (run_consistent ops _ (proj1 (consistent_create r))) as Hc.
  split; [exact Hc|]. unfold consistent in Hc. rewrite Hc. cbn.
  destruct (frameId (run ops (create r))) as [h|]; cbn.
  - split; [lia|]. split; reflexivity.
  - split; [lia|]. split; discriminate.
Qed.

Lemma animation_frame_frameId (a : t) :
  consistent a ->
  (frameId a = None -> frameId (animation_frame a) = None)
  /\ (is_Some (frameId a) -> is_Some (frameId (animation_frame a))).
Proof.
  unfold consistent, animation_frame. intros Hc. rewrite Hc.
  destruct (frameId a) as [h|]; cbn [foldl].
  - split; [discriminate|]. intros _. unfold drawFrame.
    destruct (negb _); cbn; eauto.
  - split; [reflexivity|]. intros [x Hx]. discriminate.
Qed.

Lemma apply_stopped (a : t) (o : op) :
  consistent a -> o <> Start -> frameId a = None -> frameId (apply a o) = None.
Proof.
  intros Hc Ho Hf. destruct o as [| |l m h| | |r]; cbn [apply].
  - congruence.
  - now rewrite stop_stopped.
  - exact Hf.
  - now apply animation_frame_frameId.
  - destruct (on_resize_keeps_frame a) as (-> & _). exact Hf.
  - exact Hf.
Qed.

Lemma apply_started (a : t) (o : op) :
  consistent a -> o <> Stop -> is_Some (frameId a) ->
  is_Some (frameId (apply a o)).
Proof.
  intros Hc Ho Hf. destruct o as [| |l m h| | |r]; cbn [apply].
  - now rewrite start_started.
  - congruence.
  - exact Hf.
  - now apply animation_frame_frameId.
  - destruct (on_resize_keeps_frame a) as (-> & _). exact Hf.
  - exact Hf.
Qed.

(** X12.  After [stop], nothing draws until the next [start]: frames, band
    updates, resizes and further [stop] calls register no callback. *)
Theorem stopped_until_started (ops : list op) (a : t) :
  consistent a -> Forall (fun o => o <> Start) ops ->
  frameId (run ops (stop a)) = None /\ callbacks (run ops (stop a)) = [].
Proof.
  intros Hc Hops.
  assert (forall b, consistent b -> frameId b = None ->
                    frameId (run ops b) = None) as Hrun.
  { induction Hops as [|o ops Ho _ IH]; intros b Hb Hf; [exact Hf|].
    apply (IH (apply b o)); [now apply apply_consistent|].
    now apply apply_stopped. }
  destruct (stop_spec a Hc) as [Hf _].
  pose proof (run_consistent ops _ (consistent_stop a Hc)) as Hc'.
  specialize (Hrun _ (consistent_stop a Hc) Hf).
  split; [exact Hrun|]. unfold consistent in Hc'. now rewrite Hrun in Hc'.
Qed.

(** X13.  After [start], the draw loop stays alive until the next [stop]: every
    frame leaves exactly one callback registered. *)
Theorem running_until_stopped (ops : list op) (a : t) :
  consistent a -> Forall (fun o => o <> Stop) ops ->
  exists h, frameId (run ops (start a)) = Some h
            /\ callbacks (run ops (start a)) = [h].
Proof.
  intros Hc Hops.
  assert (forall b, consistent b -> is_Some (frameId b) ->
                    is_Some (frameId (run ops b))) as Hrun.
  { induction Hops as [|o ops Ho _ IH]; intros b Hb Hf; [exact Hf|].
    apply (IH (apply b o)); [now apply apply_consistent|].
    now apply apply_started. }
  destruct (start_twice a Hc) as (Hss & h0 & Hf0 & _).
  rewrite Hss in Hf0.
  pose proof (run_consistent ops _ (consistent_start a Hc)) as Hc'.
  destruct (Hrun _ (consistent_start a Hc)) as [h Hh]; [eauto|].
  exists h. split; [exact Hh|]. unfold consistent in Hc'. now rewrite Hh in Hc'.
Qed.

Lemma stopped_until_started_witness :
  consistent (start (create (800, 600)))
  /\ Forall (fun o => o <> Start) [AnimationFrame; Update 1 2 3; AnimationFrame]
  /\ callbacks (run [AnimationFrame; Update 1 2 3; AnimationFrame]
                  (stop (start (create (800, 600))))) = [].
Proof.
  assert (Forall (fun o => o <> Start)
            [AnimationFrame; Update 1 2 3; AnimationFrame]) as Hops
    by (repeat (apply List.Forall_cons; [discriminate|]); apply List.Forall_nil).
  split; [reflexivity|]. split; [exact Hops|].
  apply (stopped_until_started _ (start (create (800, 600))) eq_refl Hops).
Defined.

Lemma running_until_stopped_witness :
  consistent (create (800, 600))
  /\ Forall (fun o => o <> Stop) [AnimationFrame; Start; AnimationFrame]
  /\ length (callbacks (run [AnimationFrame; Start; AnimationFrame]
                          (start (create (800, 600))))) = 1%nat.
Proof.
  assert (Forall (fun o => o <> Stop) [AnimationFrame; Start; AnimationFrame])
    as Hops
    by (repeat (apply List.Forall_cons; [discriminate|]); apply List.Forall_nil).
  split; [reflexivity|]. split; [exact Hops|].
  destruct (running_until_stopped _ (create (800, 600)) eq_refl Hops)
    as (h & _ & ->).
  reflexivity.
Defined.

Lemma animation_frame_bands (a : t) : bands (animation_frame a) = bands a.
Proof.
  unfold animation_frame.
  change (bands a) with
    (bands (mk (frameId a) (LOW a) (MID a) (HIGH a) (width a) (height a)
              (initialized a) (rect a) [] (next_handle a))).
  generalize (mk (frameId a) (LOW a) (MID a) (HIGH a) (width a) (height a)
                (initialized a) (rect a) [] (next_handle a)) as b.
  induction (callbacks a) as [|x q IH]; intros b; [reflexivity|].
  cbn [foldl]. rewrite IH. unfold drawFrame, resize.
  destruct (negb (initialized b)); [|reflexivity].
  destruct (rect b) as [w h]. destruct ((w <=? 2) || (h <=? 2)); reflexivity.
Qed.

Lemma apply_bands (a : t) (o : op) :
  (forall l m h, o <> Update l m h) -> bands (apply a o) = bands a.
Proof.
  intros Ho. destruct o as [| |l m h| | |r]; cbn [apply].
  - unfold start. destruct (frameId a); [reflexivity|].
    unfold resize. destruct (rect a) as [w h].
    destruct ((w <=? 2) || (h <=? 2)); reflexivity.
  - unfold stop. destruct (frameId a); reflexivity.
  - now specialize (Ho l m h).
  - apply animation_frame_bands.
  - apply on_resize_keeps_frame.
  - reflexivity.
Qed.

(** X14.  The values of the last [updateFrequencies] call are what the instance
    holds until the next one: starting, stopping, drawing and resizing do
    not touch them. *)
Theorem bands_are_last_update (ops : list op) (l m h : Z) (a : t) :
  Forall (fun o => forall l' m' h', o <> Update l' m' h') ops ->
  bands (run ops (updateFrequencies l m h a)) = (l, m, h).
Proof.
  intros Hops.
  change (l, m, h) with (bands (updateFrequencies l m h a)).
  generalize (updateFrequencies l m h a) as b.
  induction Hops as [|o ops Ho _ IH]; intros b; [reflexivity|].
  change (run (o :: ops) b) with (run ops (apply b o)).
  rewrite IH. now apply apply_bands.
Qed.

Lemma bands_are_last_update_witness :
  Forall (fun o => forall l' m' h', o <> Update l' m' h')
    [Start; AnimationFrame; Stop]
  /\ bands (run [Start; AnimationFrame; Stop]
              (updateFrequencies 10 50 80 (create (800, 600)))) = (10, 50, 80).
Proof.
  assert (Forall (fun o => forall l' m' h', o <> Update l' m' h')
            [Start; AnimationFrame; Stop]) as Hops
    by (repeat (apply List.Forall_cons; [discriminate|]); apply List.Forall_nil).
  split; [exact Hops|].
  exact (bands_are_last_update _ 10 50 80 (create (800, 600)) Hops).
Defined.
End TemplateLifecycleMore.

(** ** Rotation controller: timers and manifest, for any modules *)
Section RotationMore.
Import Loader.
Context {M : Type} `{Animation M}.

Lemma rotateNext_cfg (k : Z) (s : state M) :
  cfg <$> loaded (rotateNext k s).2 = cfg <$> loaded s.
Proof.
  rewrite rotateNext_unfold. cbn zeta.
  destruct (showIndex_schedule
              (Z.rem (currentIndex s + k + Z.of_nat (length (loaded s)))
                 (Z.of_nat (length (loaded s)))) s) as [Hsch _].
  apply (f_equal snd) in Hsch. unfold schedule in Hsch. cbn [snd] in Hsch.
  destruct (showIndex _ s) as [[[]|] s1]; cbn [fst snd] in *; [|exact Hsch].
  destruct (clearTimeout_other (rotationTimer s1) s1) as (_ & _ & _ & Hl & _).
  destruct (paused s1); cbn [snd fst loaded with_rotationTimer setTimeout];
    rewrite Hl; exact Hsch.
Qed.

Lemma step_cfg (s : state M) (e : event) :
  cfg <$> loaded (step s e) = cfg <$> loaded s.
Proof.
  destruct e as [| | |k|index|ms|h]; unfold step; cbn [handler].
  - unfold on_prev, mbind, js_bind, modify. cbn.
    now rewrite rotateNext_cfg.
  - unfold on_next, mbind, js_bind, modify. cbn.
    now rewrite rotateNext_cfg.
  - unfold on_pause, mbind, js_bind, get, modify. cbn.
    destruct (negb (paused s)), (rotationTimer s); reflexivity.
  - apply rotateNext_cfg.
  - destruct (showIndex_schedule index s) as [Hsch _].
    exact (f_equal snd Hsch).
  - reflexivity.
  - unfold on_timer, mbind, js_bind, get, modify. cbn.
    destruct (bool_decide _); cbn; [|reflexivity].
    now rewrite rotateNext_cfg.
Qed.

Lemma init_cfg (items : list (item M)) (s0 : state M) :
  init items = Some s0 -> cfg <$> loaded s0 = cfg <$> items.
Proof.
  destruct items as [|it items]; [discriminate|]. intros [= <-].
  unfold boot, startup, mbind, js_bind, get, modify.
  destruct (showIndex_schedule 0 (initial (it :: items))) as [Hsch _].
  apply (f_equal snd) in Hsch. unfold schedule in Hsch. cbn [snd] in Hsch.
  destruct (showIndex 0 _) as [[[]|] s1]; cbn [fst snd] in *; exact Hsch.
Qed.

(** X15.  The loaded elements keep their manifest entries, their number and
    their order through everything: no module is evicted, whatever its
    hooks do. *)
Theorem manifest_never_changes (items : list (item M)) (s0 : state M)
    (es : list event) :
  init items = Some s0 ->
  cfg <$> loaded (run es s0) = cfg <$> items
  /\ length (loaded (run es s0)) = length items.
Proof.
  intros Hinit.
  assert (cfg <$> loaded (run es s0) = cfg <$> items) as Hcfg.
  { rewrite <- (init_cfg items s0 Hinit). clear Hinit. revert s0.
    induction es as [|e es IH]; intros s0; [reflexivity|].
    change (run (e :: es) s0) with (run es (step s0 e)).
    now rewrite IH, step_cfg. }
  split; [exact Hcfg|].
  apply (f_equal length) in Hcfg. now rewrite !length_fmap in Hcfg.
Qed.

(** X16.  At any moment at most one rotation timer is pending, [rotationTimer]
    names it, and none is pending while the rotation is paused: timers are
    never duplicated, whatever the modules' hooks do. *)
Theorem never_two_timers (items : list (item M)) (s0 : state M)
    (es : list event) :
  init items = Some s0 ->
  (length (timers (run es s0)) <= 1)%nat
  /\ (forall t, t ∈ timers (run es s0) ->
                rotationTimer (run es s0) = Some (handle t))
  /\ (paused (run es s0) = true -> timers (run es s0) = []).
Proof.
  intros Hinit.
  destruct (run_timer_inv es s0 (init_timer_inv _ _ Hinit))
    as [Hp [Hnil|(t & Ht & Hr)]].
  - rewrite Hnil. split; [cbn; lia|]. split; [|auto].
    intros t Ht. now apply elem_of_nil in Ht.
  - rewrite Ht. split; [cbn; lia|]. split; [|rewrite <- Ht; exact Hp].
    intros t' Ht'. apply list_elem_of_singleton in Ht'. now subst.
Qed.

(** X17.  A click on next or previous leaves the rotation unpaused and calls
    [showIndex] exactly once, whatever the modules' hooks do. *)
Theorem navigation_resumes (items : list (item M)) (s0 : state M)
    (es : list event) (e : event) :
  init items = Some s0 ->
  e = ClickNext \/ e = ClickPrev ->
  paused (step (run es s0) e) = false
  /\ length (shown (step (run es s0) e)) = S (length (shown (run es s0))).
Proof.
  intros Hinit He.
  pose proof (run_timer_inv es s0 (init_timer_inv _ _ Hinit)) as Hinv.
  assert (timer_inv (with_paused false (run es s0))) as Hinv'.
  { destruct Hinv as [_ H2]. split; [discriminate|exact H2]. }
  destruct He as [-> | ->]; unfold step; cbn [handler];
    unfold on_next, on_prev, mbind, js_bind, modify; cbn.
  - destruct (rotateNext_spec 1 _ Hinv') as (_ & Hsh & Hp & _).
    rewrite Hsh, Hp. auto.
  - destruct (rotateNext_spec (-1) _ Hinv') as (_ & Hsh & Hp & _).
    rewrite Hsh, Hp. auto.
Qed.

(** X18.  When the [stop] hook of the current module throws, the transition is
    abandoned before anything else happens: [rotateNext] throws, every
    view keeps its display, the current element stays the same, and no
    timer is cleared or armed. *)
Theorem throwing_stop_abandons_transition (k : Z) (s : state M) (c : nat)
    (it : item M) (m m' : M) :
  currentItem s = Some c -> loaded s !! c = Some it ->
  instance it = Some m -> stop m = Some (Thrown m') ->
  (rotateNext k s).1 = Exn
  /\ display <$> loaded (rotateNext k s).2 = display <$> loaded s
  /\ currentIndex (rotateNext k s).2 = currentIndex s
  /\ currentItem (rotateNext k s).2 = currentItem s
  /\ currentAnimation (rotateNext k s).2 = currentAnimation s
  /\ timers (rotateNext k s).2 = timers s
  /\ rotationTimer (rotateNext k s).2 = rotationTimer s.
Proof.
  intros Hc Hit Hm Hstop. rewrite rotateNext_unfold. cbn zeta.
  rewrite showIndex_unfold. cbn zeta. cbn [currentItem with_shown].
  rewrite Hc. unfold call_hook. cbn [loaded with_shown].
  rewrite Hit, Hm, Hstop. cbn.
  repeat split; try reflexivity; try assumption.
  now apply fmap_alter_same.
Qed.
End RotationMore.

Section RotationMoreCases.
Import Loader.

Lemma manifest_never_changes_witness :
  init one_faulty = Some (boot one_faulty)
  /\ length (loaded (run [Wait 5000; TimerFires 1; ClickNext] (boot one_faulty)))
     = 2%nat.
Proof.
  split; [reflexivity|].
  exact (proj2 (manifest_never_changes one_faulty (boot one_faulty)
                  [Wait 5000; TimerFires 1; ClickNext] eq_refl)).
Defined.

Lemma never_two_timers_witness :
  init two_items = Some (boot two_items)
  /\ (length (timers (run [ClickNext; ClickPause; ClickPause; ClickPrev]
                        (boot two_items))) <= 1)%nat.
Proof.
  split; [reflexivity|].
  exact (proj1 (never_two_timers two_items (boot two_items)
                  [ClickNext; ClickPause; ClickPause; ClickPrev] eq_refl)).
Defined.

Lemma navigation_resumes_witness :
  init one_faulty = Some (boot one_faulty)
  /\ (ClickNext = ClickNext \/ ClickNext = ClickPrev)
  /\ paused (step (run [ClickPause] (boot one_faulty)) ClickNext) = false.
Proof.
  split; [reflexivity|]. split; [now left|].
  exact (proj1 (navigation_resumes one_faulty (boot one_faulty) [ClickPause]
                  ClickNext eq_refl (or_introl eq_refl))).
Defined.

Lemma throwing_stop_abandons_transition_witness :
  currentItem (boot one_faulty) = Some 0%nat
  /\ loaded (boot one_faulty) !! 0%nat
     = Some (mk_item true
               (Some (Scripted.mk Scripted.works Scripted.throws Scripted.works
                        true []))
               (mk_config (Some 5)))
  /\ stop (Scripted.mk Scripted.works Scripted.throws Scripted.works true [])
     = Some (Thrown (Scripted.mk Scripted.works Scripted.throws Scripted.works
                       true []))
  /\ (rotateNext 1 (boot one_faulty)).1 = Exn.
Proof.
  split; [reflexivity|]. split; [reflexivity|]. split; [reflexivity|].
  exact (proj1 (throwing_stop_abandons_transition 1 (boot one_faulty) 0 _ _ _
                  eq_refl eq_refl eq_refl eq_refl)).
Defined.
End RotationMoreCases.

(** ** Rotation controller with modules that honour the contract *)
Section RotationLawful.
Import Loader.
Context {M : Type} `{Lawful M}.

Lemma call_hook_display (hook : M -> option (outcome M)) (i : nat) (s : state M) :
  display <$> loaded (call_hook hook i s).2 = display <$> loaded s
  /\ currentAnimation (call_hook hook i s).2 = currentAnimation s.
Proof.
  unfold call_hook.
  destruct (loaded s !! i) as [it|]; [|auto].
  destruct (instance it) as [m|]; [|auto].
  destruct (hook m) as [[m'|m']|]; cbn; (split; [|reflexivity]); auto;
    now apply fmap_alter_same.
Qed.

(** The two hook calls of [showIndex] return, so it runs to its end. *)
Lemma showIndex_shape (i : nat) (s : state M) :
  (i < length (loaded s))%nat ->
  exists s1 : state M,
    match currentItem s with
    | Some c => call_hook stop c (with_shown (Z.of_nat i :: shown s) s)
    | None => (Ok tt, with_shown (Z.of_nat i :: shown s) s)
    end = (Ok tt, s1)
    /\ showIndex (Z.of_nat i) s
       = (Ok tt, set_current i (Z.of_nat i)
                   (call_hook start i (show_view i (hideAll s1))).2).
Proof.
  intros Hi. rewrite showIndex_unfold. cbn zeta.
  set (s0 := with_shown (Z.of_nat i :: shown s) s).
  change (currentItem s0) with (currentItem s).
  assert (exists s1 : state M,
    match currentItem s with
    | Some c => call_hook stop c s0
    | None => (Ok tt, s0)
    end = (Ok tt, s1)
    /\ length (loaded s1) = length (loaded s)) as (s1 & Hs1 & Hlen).
  { destruct (currentItem s) as [c|]; [|eauto].
    destruct (call_stop_lawful c s0) as [Hok _].
    destruct (call_hook_schedule stop c s0) as [Hsch _].
    apply (f_equal snd) in Hsch. unfold schedule in Hsch. cbn [snd] in Hsch.
    apply (f_equal length) in Hsch. rewrite !length_fmap in Hsch.
    destruct (call_hook stop c s0) as [[[]|] s1]; cbn [fst snd] in *;
      [eauto|discriminate]. }
  exists s1. split; [exact Hs1|]. rewrite Hs1.
  rewrite lookupZ_of_nat, Nat2Z.id.
  destruct (loaded (hideAll s1) !! i) as [it|] eqn:Hit.
  - destruct (call_start_lawful i (show_view i (hideAll s1))) as [Hok _].
    destruct (call_hook start i _) as [[[]|] s3]; cbn [fst snd] in *;
      [reflexivity|discriminate].
  - apply lookup_ge_None in Hit. cbn in Hit. rewrite length_fmap in Hit. lia.
Qed.

Lemma showIndex_view (i : nat) (s : state M) :
  (i < length (loaded s))%nat -> view_inv (showIndex (Z.of_nat i) s).2.
Proof.
  intros Hi. destruct (showIndex_shape i s Hi) as (s1 & _ & ->). cbn [snd].
  set (s2 := show_view i (hideAll s1)).
  destruct (call_hook_display start i s2) as [Hd _].
  exists i. split; [reflexivity|]. split.
  - intros j it Hit. cbn [loaded set_current] in Hit.
    assert ((display <$> loaded (call_hook start i s2).2) !! j
            = Some (display it)) as Hj
      by (now rewrite list_lookup_fmap, Hit).
    rewrite Hd in Hj. subst s2. cbn [loaded show_view hideAll with_loaded] in Hj.
    rewrite list_lookup_fmap, list_lookup_alter in Hj.
    destruct (decide (i = j)) as [->|Hne]; rewrite !list_lookup_fmap in Hj.
    + rewrite bool_decide_eq_true_2 by reflexivity.
      destruct (loaded s1 !! j); cbn in Hj; congruence.
    + rewrite bool_decide_eq_false_2 by congruence.
      destruct (loaded s1 !! j); cbn in Hj; congruence.
  - cbn [currentAnimation loaded set_current].
    destruct (loaded (call_hook start i s2).2 !! i) as [it|]; [|reflexivity].
    cbn. unfold has_instance. destruct (instance it); reflexivity.
Qed.

Lemma view_inv_ext (s s' : state M) :
  page s' = page s -> view_inv s -> view_inv s'.
Proof. unfold page, view_inv. intros [= -> _ -> ->]. auto. Qed.

Lemma rot_inv_page (s s' : state M) :
  page s' = page s -> rot_inv s -> rot_inv s'.
Proof. intros [= Hl Hx Hc _]. now apply rot_inv_ext. Qed.

(** What [rotateNext] does, all told. *)
Lemma rotateNext_lawful (k : Z) (s : state M) :
  rot_inv s -> timer_inv s -> - Z.of_nat (length (loaded s)) <= k ->
  (rotateNext k s).1 = Ok tt
  /\ currentIndex (rotateNext k s).2
     = (currentIndex s + k) mod Z.of_nat (length (loaded s))
  /\ rot_inv (rotateNext k s).2 /\ view_inv (rotateNext k s).2
  /\ paused (rotateNext k s).2 = paused s
  /\ (paused s = false ->
      timers (rotateNext k s).2
      = [mk_timer (next_timer s)
           (duration_of (current (rotateNext k s).2) * 1000)
           (now s + Z.max 0 (duration_of (current (rotateNext k s).2) * 1000))]
      /\ rotationTimer (rotateNext k s).2 = Some (next_timer s)).
Proof.
  intros Hinv Htim Hk. rewrite rotateNext_unfold. cbn zeta.
  pose proof (rot_inv_calm s Hinv) as Hcalm.
  destruct Hinv as (c & Hc & Hcx & Hlt & Hrun).
  set (n := length (loaded s)) in *.
  set (next := Z.rem _ _).
  assert (next = (currentIndex s + k) mod Z.of_nat n) as Hmod.
  { subst next. rewrite Z.rem_mod_nonneg by lia.
    rewrite <- (Z_mod_plus_full (currentIndex s + k) 1 (Z.of_nat n)).
    f_equal. lia. }
  assert (0 <= next < Z.of_nat n) as Hnext.
  { rewrite Hmod. apply Z.mod_pos_bound. lia. }
  assert (next = Z.of_nat (Z.to_nat next)) as Hnat by lia.
  destruct (showIndex_rot_inv (Z.to_nat next) s) as (Hok & Hinv' & Hlen);
    [fold n; lia|exact Hcalm|].
  pose proof (showIndex_view (Z.to_nat next) s) as Hview.
  destruct (showIndex_schedule next s) as [Hsch _].
  rewrite <- Hnat in Hok, Hinv', Hlen, Hview.
  specialize (Hview ltac:(fold n; lia)).
  pose proof (timer_inv_schedule _ _ Hsch Htim) as Htim'.
  assert (timing (showIndex next s).2 = timing s) as Ht
    by exact (f_equal fst Hsch).
  assert (currentIndex (showIndex next s).2 = next) as Hcx'.
  { destruct (showIndex_lawful (Z.to_nat next) s) as (_ & _ & Hx & _);
      [fold n; lia|]. now rewrite <- Hnat in Hx. }
  destruct (showIndex next s) as [[[]|] s1]; cbn [fst snd] in *; [|discriminate].
  unfold timing in Ht.
  assert (paused s1 = paused s /\ next_timer s1 = next_timer s /\ now s1 = now s)
    as (Hp & Hnt & Hnow) by (repeat split; congruence).
  pose proof (clearTimeout_rotationTimer s1 Htim') as Hclr.
  assert (page (clearTimeout (rotationTimer s1) s1) = page s1) as Hpage
    by (destruct (rotationTimer s1); reflexivity).
  destruct (clearTimeout_other (rotationTimer s1) s1)
    as (Hcp & Hcn & Hcnt & Hcl & _ & Hcc).
  destruct (paused s1) eqn:Hps1; cbn [fst snd].
  - split; [reflexivity|]. split; [congruence|].
    split; [exact (rot_inv_page _ _ Hpage Hinv')|].
    split; [exact (view_inv_ext _ _ Hpage Hview)|].
    split; [congruence|]. intros Hf. congruence.
  - set (s2 := clearTimeout (rotationTimer s1) s1) in *.
    split; [reflexivity|]. split; [cbn; congruence|].
    split; [apply (rot_inv_page s1); [exact Hpage|exact Hinv']|].
    split; [apply (view_inv_ext s1); [exact Hpage|exact Hview]|].
    split; [cbn; congruence|]. intros _.
    unfold current. cbn. rewrite Hclr, Hcl, Hcc, Hcx', Hcnt, Hcn, Hnt, Hnow.
    split; reflexivity.
Qed.

Lemma fired_timer (h : positive) (s : state M) :
  timer_inv s ->
  Exists (fun t => handle t = h /\ due t <= now s) (timers s) ->
  timer_inv (clearTimeout (Some h) s)
  /\ paused s = false
  /\ exists t, timers s = [t] /\ handle t = h /\ due t <= now s.
Proof.
  intros [Hp [Hnil|(t & Ht & Hr)]] Hex.
  - rewrite Hnil in Hex. now apply Exists_nil in Hex.
  - rewrite Ht in Hex. apply Exists_cons in Hex as [[Hh Hdue]|Hex];
      [|now apply Exists_nil in Hex].
    split; [|split; [|eauto]].
    + unfold timer_inv. cbn. rewrite Ht, filter_cons, filter_nil.
      destruct (decide (handle t <> h)); [congruence|]. auto.
    + destruct (paused s); [|reflexivity].
      specialize (Hp eq_refl). congruence.
Qed.

Lemma settled_paused (n : nat) (b : bool) (s : state M) :
  settled n s -> rot_inv (with_paused b s) /\ view_inv (with_paused b s).
Proof.
  intros (Hr & Hv & _ & _). split.
  - eapply rot_inv_page; [|exact Hr]. reflexivity.
  - eapply view_inv_ext; [|exact Hv]. reflexivity.
Qed.

Lemma rotateNext_settled (n : nat) (k : Z) (s : state M) :
  rot_inv s -> timer_inv s -> length (loaded s) = n -> - Z.of_nat n <= k ->
  settled n (rotateNext k s).2.
Proof.
  intros Hr Ht Hlen Hk.
  destruct (rotateNext_lawful k s Hr Ht) as (_ & _ & Hr' & Hv' & _); [lia|].
  destruct (rotateNext_rot_inv k s Hr) as [_ Hl]; [lia|].
  destruct (rotateNext_spec k s Ht) as (Ht' & _).
  split; [exact Hr'|]. split; [exact Hv'|]. split; [exact Ht'|congruence].
Qed.

Lemma step_settled (n : nat) (s : state M) (e : event) :
  settled n s -> targets_entry n e -> settled n (step s e).
Proof.
  intros Hs Hvalid. pose proof Hs as (Hr & Hv & Ht & Hlen).
  assert (1 <= n)%nat as Hpos.
  { destruct Hr as (c & _ & _ & Hlt & _). lia. }
  destruct e as [| | |k|index|ms|h]; unfold step; cbn [handler].
  - unfold on_prev, mbind, js_bind, modify. cbn.
    apply rotateNext_settled; [eapply rot_inv_page; [|exact Hr]; reflexivity
      |destruct Ht as [_ H2]; split; [discriminate|exact H2]|exact Hlen|lia].
  - unfold on_next, mbind, js_bind, modify. cbn.
    apply rotateNext_settled; [eapply rot_inv_page; [|exact Hr]; reflexivity
      |destruct Ht as [_ H2]; split; [discriminate|exact H2]|exact Hlen|lia].
  - destruct (on_pause_spec s Ht) as (Ht' & _).
    destruct (step_rot_inv n s ClickPause Hr Hlen I) as [Hr' Hl'].
    split; [exact Hr'|]. split; [|split; [exact Ht'|exact Hl']].
    eapply view_inv_ext; [|exact Hv].
    unfold on_pause, mbind, js_bind, get, modify. cbn.
    destruct (negb (paused s)), (rotationTimer s); reflexivity.
  - cbn in Hvalid. now apply rotateNext_settled.
  - cbn in Hvalid.
    destruct (step_rot_inv n s (CallShowIndex index) Hr Hlen Hvalid)
      as [Hr' Hl'].
    split; [exact Hr'|]. split; [|split; [|exact Hl']].
    + replace index with (Z.of_nat (Z.to_nat index)) by lia.
      apply showIndex_view. lia.
    + exact (step_timer_inv s (CallShowIndex index) Ht).
  - exact Hs.
  - unfold on_timer, mbind, js_bind, get, modify. cbn.
    destruct (bool_decide _) eqn:Hdue; cbn; [|exact Hs].
    apply bool_decide_eq_true in Hdue.
    destruct (fired_timer h s Ht Hdue) as (Ht' & _).
    apply rotateNext_settled; [|exact Ht'|exact Hlen|lia].
    eapply rot_inv_page; [|exact Hr]. reflexivity.
Qed.

Lemma run_settled (n : nat) (es : list event) :
  forall s : state M,
    settled n s -> Forall (targets_entry n) es -> settled n (run es s).
Proof.
  induction es as [|e es IH]; intros s Hs Hall; [exact Hs|].
  apply Forall_cons in Hall as [He Hall].
  exact (IH (step s e) (step_settled n s e Hs He) Hall).
Qed.

Lemma init_settled (items : list (item M)) (s0 : state M) :
  init items = Some s0 ->
  Forall (fun it => is_running it = false) items ->
  settled (length items) s0.
Proof.
  intros Hinit Hquiet.
  destruct (init_rot_inv items s0 Hinit Hquiet) as [Hr Hl].
  pose proof (init_timer_inv items s0 Hinit) as Ht.
  split; [exact Hr|]. split; [|split; [exact Ht|exact Hl]].
  destruct items as [|it items]; [discriminate|]. injection Hinit as <-.
  unfold boot, startup, mbind, js_bind, get, modify.
  pose proof (showIndex_view 0 (initial (it :: items))) as Hv.
  destruct (showIndex_lawful 0 (initial (it :: items))) as (Hok & _);
    [cbn; lia|].
  change (Z.of_nat 0) with 0 in *.
  destruct (showIndex 0 _) as [[[]|] s1]; cbn [fst snd] in *; [|discriminate].
  eapply view_inv_ext; [|apply Hv; cbn; lia]. reflexivity.
Qed.

(** X19.  Between any two events exactly one view is displayed, that of the
    current element. *)
Theorem only_current_view_displayed (items : list (item M)) (s0 : state M)
    (es : list event) (j : nat) (it : item M) :
  init items = Some s0 ->
  Forall (fun it => is_running it = false) items ->
  Forall (targets_entry (length items)) es ->
  loaded (run es s0) !! j = Some it ->
  display it = bool_decide (Z.of_nat j = currentIndex (run es s0)).
Proof.
  intros Hinit Hquiet Hvalid Hit.
  destruct (run_settled _ es s0 (init_settled _ _ Hinit Hquiet) Hvalid)
    as (Hr & Hv & _).
  destruct Hr as (c & Hc & Hcx & _). destruct Hv as (c' & Hc' & Hd & _).
  assert (c' = c) as -> by congruence.
  rewrite (Hd j it Hit), Hcx. apply bool_decide_ext. lia.
Qed.

(** X20.  [window.currentAnimation], the module the audio loop delivers to, is
    always the instance of the current element, and null when that element
    has none. *)
Theorem audio_target_is_current_instance (items : list (item M))
    (s0 : state M) (es : list event) :
  init items = Some s0 ->
  Forall (fun it => is_running it = false) items ->
  Forall (targets_entry (length items)) es ->
  currentAnimation (run es s0)
  = match current (run es s0) with
    | Some it => if has_instance it
                 then Some (Z.to_nat (currentIndex (run es s0)))
                 else None
    | None => None
    end.
Proof.
  intros Hinit Hquiet Hvalid.
  destruct (run_settled _ es s0 (init_settled _ _ Hinit Hquiet) Hvalid)
    as (Hr & Hv & _).
  destruct Hr as (c & Hc & Hcx & _). destruct Hv as (c' & Hc' & _ & Ha).
  assert (c' = c) as -> by congruence.
  unfold current. rewrite Hcx, lookupZ_of_nat, Nat2Z.id. exact Ha.
Qed.

(** X21.  A click on next or previous moves the rotation one element forward or
    back, wrapping around at both ends, and leaves exactly one timer
    pending, sized to the element now shown (8 seconds when it names no
    duration). *)
Theorem navigation_steps_and_wraps (items : list (item M)) (s0 : state M)
    (es : list event) (e : event) (d : Z) :
  init items = Some s0 ->
  Forall (fun it => is_running it = false) items ->
  Forall (targets_entry (length items)) es ->
  (e = ClickNext /\ d = 1) \/ (e = ClickPrev /\ d = -1) ->
  currentIndex (step (run es s0) e)
  = (currentIndex (run es s0) + d) mod Z.of_nat (length items)
  /\ timers (step (run es s0) e)
     = [mk_timer (next_timer (run es s0))
          (duration_of (current (step (run es s0) e)) * 1000)
          (now (run es s0)
           + Z.max 0 (duration_of (current (step (run es s0) e)) * 1000))].
Proof.
  intros Hinit Hquiet Hvalid He.
  pose proof (run_settled _ es s0 (init_settled _ _ Hinit Hquiet) Hvalid) as Hs.
  destruct (settled_paused _ false _ Hs) as [Hr' _].
  destruct Hs as (Hr & _ & Ht & Hlen).
  assert (timer_inv (with_paused false (run es s0))) as Ht'.
  { destruct Ht as [_ H2]. split; [discriminate|exact H2]. }
  assert (1 <= length items)%nat as Hpos.
  { destruct Hr as (c & _ & _ & Hlt & _). lia. }
  assert (step (run es s0) e = (rotateNext d (with_paused false (run es s0))).2)
    as -> by (destruct He as [[-> ->]|[-> ->]]; reflexivity).
  destruct (rotateNext_lawful d _ Hr' Ht') as (_ & Hcx & _ & _ & _ & Htm).
  { cbn. rewrite Hlen. destruct He as [[_ ->]|[_ ->]]; lia. }
  cbn [loaded with_paused currentIndex] in Hcx. rewrite Hlen in Hcx.
  split; [exact Hcx|]. exact (proj1 (Htm eq_refl)).
Qed.

(** X22.  When the pending timer comes due, the rotation moves to the next
    element, wrapping around after the last, and a new timer is armed for
    the duration of the element now shown. *)
Theorem timer_advances_rotation (items : list (item M)) (s0 : state M)
    (es : list event) (h : positive) :
  init items = Some s0 ->
  Forall (fun it => is_running it = false) items ->
  Forall (targets_entry (length items)) es ->
  Exists (fun t => handle t = h /\ due t <= now (run es s0)) (timers (run es s0)) ->
  currentIndex (step (run es s0) (TimerFires h))
  = (currentIndex (run es s0) + 1) mod Z.of_nat (length items)
  /\ timers (step (run es s0) (TimerFires h))
     = [mk_timer (next_timer (run es s0))
          (duration_of (current (step (run es s0) (TimerFires h))) * 1000)
          (now (run es s0)
           + Z.max 0 (duration_of (current (step (run es s0) (TimerFires h)))
                      * 1000))].
Proof.
  intros Hinit Hquiet Hvalid Hdue.
  pose proof (run_settled _ es s0 (init_settled _ _ Hinit Hquiet) Hvalid)
    as (Hr & _ & Ht & Hlen).
  destruct (fired_timer h _ Ht Hdue) as (Ht' & Hp & _).
  assert (1 <= length items)%nat as Hpos.
  { destruct Hr as (c & _ & _ & Hlt & _). lia. }
  assert (step (run es s0) (TimerFires h)
          = (rotateNext 1 (clearTimeout (Some h) (run es s0))).2) as ->.
  { unfold step. cbn [handler]. unfold on_timer, mbind, js_bind, get, modify.
    cbn. now rewrite bool_decide_eq_true_2 by exact Hdue. }
  destruct (rotateNext_lawful 1 (clearTimeout (Some h) (run es s0)))
    as (_ & Hcx & _ & _ & _ & Htm);
    [eapply rot_inv_page; [|exact Hr]; reflexivity|exact Ht'|cbn; lia|].
  cbn [loaded clearTimeout with_timers currentIndex] in Hcx.
  rewrite Hlen in Hcx. split; [exact Hcx|]. exact (proj1 (Htm Hp)).
Qed.

Lemma duration_of_cfg (l l' : list (item M)) (i : nat) :
  cfg <$> l = cfg <$> l' -> duration_of (l !! i) = duration_of (l' !! i).
Proof.
  intros Hcfg. apply (f_equal (fun x => x !! i)) in Hcfg.
  rewrite !list_lookup_fmap in Hcfg. unfold duration_of.
  destruct (l !! i), (l' !! i); cbn in Hcfg; try discriminate; [|reflexivity].
  injection Hcfg as ->. reflexivity.
Qed.

(** X23.  [init] shows the first element at once, unpaused, and arms one timer
    for that element's duration (8 seconds when the manifest gives none). *)
Theorem startup_shows_first (items : list (item M)) (s0 : state M) :
  init items = Some s0 ->
  currentIndex s0 = 0 /\ shown s0 = [0] /\ paused s0 = false
  /\ timers s0
     = [mk_timer 1 (duration_of (items !! 0%nat) * 1000)
          (Z.max 0 (duration_of (items !! 0%nat) * 1000))]
  /\ rotationTimer s0 = Some 1%positive.
Proof.
  destruct items as [|it items]; [discriminate|]. intros [= <-].
  set (s := initial (it :: items)).
  unfold boot, startup, mbind, js_bind, get, modify. fold s.
  destruct (showIndex_lawful 0 s) as (Hok & Hci & Hcx & _); [cbn; lia|].
  destruct (showIndex_schedule 0 s) as [Hsch Hsh].
  change (Z.of_nat 0) with 0 in *.
  assert (timing (showIndex 0 s).2 = timing s) as Ht by exact (f_equal fst Hsch).
  assert (cfg <$> loaded (showIndex 0 s).2 = cfg <$> (it :: items)) as Hcfg
    by exact (f_equal snd Hsch).
  destruct (showIndex 0 s) as [[[]|] s1]; cbn [fst snd] in *; [|discriminate].
  unfold timing in Ht. cbn in Ht. injection Ht as Hr Hp Htm Hn Hnow.
  cbn. rewrite Hci, Hp, Htm, Hn, Hnow, Hsh. cbn.
  rewrite (duration_of_cfg _ (it :: items) 0 Hcfg). cbn.
  repeat split; try reflexivity; assumption.
Qed.

(** X24.  [showIndex] on an index outside the list stops the current module and
    hides every view, then gives up: nothing is displayed, nothing runs,
    and the pointers to the current element, [window.currentAnimation]
    included, stay where they were. *)
Theorem showIndex_outside_hides_all (items : list (item M)) (s0 : state M)
    (es : list event) (index : Z) :
  init items = Some s0 ->
  Forall (fun it => is_running it = false) items ->
  Forall (targets_entry (length items)) es ->
  index < 0 \/ Z.of_nat (length items) <= index ->
  (showIndex index (run es s0)).1 = Ok tt
  /\ running_count (showIndex index (run es s0)).2 = 0%nat
  /\ Forall (fun it => display it = false)
       (loaded (showIndex index (run es s0)).2)
  /\ currentIndex (showIndex index (run es s0)).2 = currentIndex (run es s0)
  /\ currentAnimation (showIndex index (run es s0)).2
     = currentAnimation (run es s0).
Proof.
  intros Hinit Hquiet Hvalid Hout.
  pose proof (run_settled _ es s0 (init_settled _ _ Hinit Hquiet) Hvalid)
    as (Hr & _ & _ & Hlen).
  generalize dependent (run es s0). intros s (c & Hc & Hcx & Hlt & Hrun) Hlen.
  rewrite showIndex_unfold. cbn zeta.
  set (sl := with_shown (index :: shown s) s).
  change (currentItem sl) with (currentItem s). rewrite Hc.
  destruct (call_stop_lawful c sl) as [Hok Hobs].
  destruct (call_hook_control stop c sl) as [_ Hx].
  destruct (call_hook_display stop c sl) as [_ Ha].
  destruct (call_hook stop c sl) as [[[]|] s1]; cbn [fst snd] in *;
    [|discriminate].
  change (obs_list sl) with (obs_list s) in Hobs.
  assert (length (loaded s1) = length (loaded s)) as Hl1.
  { apply (f_equal length) in Hobs. unfold obs_list in Hobs.
    now rewrite length_alter, !length_fmap in Hobs. }
  assert (lookupZ (loaded (hideAll s1)) index = None) as ->.
  { unfold lookupZ. destruct (Z.ltb_spec index 0); [reflexivity|].
    apply lookup_ge_None. cbn. rewrite length_fmap. lia. }
  cbn [fst snd]. split; [reflexivity|]. split; [|split; [|split]].
  - unfold running_count. rewrite filter_none_running; [reflexivity|].
    intros j it Hit.
    assert (obs_list (hideAll s1) !! j = Some (obs it)) as Ho.
    { unfold obs_list. now rewrite list_lookup_fmap, Hit. }
    rewrite obs_list_hideAll, Hobs, list_lookup_alter in Ho.
    destruct (decide (c = j)) as [->|Hne].
    + apply fmap_Some in Ho as (o & _ & Ho). unfold halted, obs in Ho.
      congruence.
    + unfold obs_list in Ho. rewrite list_lookup_fmap in Ho.
      destruct (loaded s !! j) as [it0|] eqn:Hit0; [|discriminate].
      cbn in Ho. unfold obs in Ho. specialize (Hrun j it0 Hit0).
      rewrite bool_decide_eq_false_2 in Hrun by congruence. cbn in Hrun.
      congruence.
  - cbn. apply Forall_fmap. now apply Forall_true.
  - exact Hx.
  - exact Ha.
Qed.
End RotationLawful.

Section RotationLawfulCases.
Import Loader.

Lemma two_items_quiet : Forall (fun it => is_running it = false) two_items.
Proof. repeat constructor. Qed.

Lemma only_current_view_displayed_witness :
  init two_items = Some (boot two_items)
  /\ Forall (fun it => is_running it = false) two_items
  /\ Forall (targets_entry (length two_items)) [ClickNext]
  /\ display <$> loaded (run [ClickNext] (boot two_items)) = [false; true].
Proof.
  assert (Forall (targets_entry (length two_items)) [ClickNext]) as Hv
    by (repeat constructor).
  split; [reflexivity|]. split; [exact two_items_quiet|]. split; [exact Hv|].
  destruct (loaded (run [ClickNext] (boot two_items))) as [|a [|b [|x l]]] eqn:E;
    try (apply (f_equal length) in E; discriminate E).
  cbn. f_equal; [|f_equal].
  - apply (only_current_view_displayed two_items (boot two_items) [ClickNext]
             0 a eq_refl two_items_quiet Hv).
    now rewrite E.
  - apply (only_current_view_displayed two_items (boot two_items) [ClickNext]
             1 b eq_refl two_items_quiet Hv).
    now rewrite E.
Defined.

Lemma audio_target_is_current_instance_witness :
  init one_bare = Some (boot one_bare)
  /\ Forall (fun it => is_running it = false) one_bare
  /\ Forall (targets_entry (length one_bare)) [ClickNext]
  /\ currentAnimation (run [ClickNext] (boot one_bare)) = None.
Proof.
  assert (Forall (fun it => is_running it = false) one_bare) as Hq
    by (repeat constructor).
  assert (Forall (targets_entry (length one_bare)) [ClickNext]) as Hv
    by (repeat constructor).
  split; [reflexivity|]. split; [exact Hq|]. split; [exact Hv|].
  rewrite (audio_target_is_current_instance one_bare (boot one_bare)
             [ClickNext] eq_refl Hq Hv).
  reflexivity.
Defined.

Lemma navigation_steps_and_wraps_witness :
  init two_items = Some (boot two_items)
  /\ Forall (fun it => is_running it = false) two_items
  /\ Forall (targets_entry (length two_items)) []
  /\ (ClickPrev = ClickNext /\ -1 = 1 \/ ClickPrev = ClickPrev /\ -1 = -1)
  /\ currentIndex (step (run [] (boot two_items)) ClickPrev) = 1.
Proof.
  assert (ClickPrev = ClickNext /\ -1 = 1 \/ ClickPrev = ClickPrev /\ -1 = -1)
    as He by (right; split; reflexivity).
  split; [reflexivity|]. split; [exact two_items_quiet|].
  split; [constructor|]. split; [exact He|].
  rewrite (proj1 (navigation_steps_and_wraps two_items (boot two_items) []
                    ClickPrev (-1) eq_refl two_items_quiet
                    (List.Forall_nil _) He)).
  reflexivity.
Defined.

Lemma timer_advances_rotation_witness :
  init two_items = Some (boot two_items)
  /\ Forall (fun it => is_running it = false) two_items
  /\ Forall (targets_entry (length two_items)) [Wait 5000]
  /\ Exists (fun t => handle t = 1%positive
                      /\ due t <= now (run [Wait 5000] (boot two_items)))
       (timers (run [Wait 5000] (boot two_items)))
  /\ delay <$> timers (step (run [Wait 5000] (boot two_items)) (TimerFires 1))
     = [3000].
Proof.
  assert (Forall (targets_entry (length two_items)) [Wait 5000]) as Hv
    by (repeat constructor).
  assert (Exists (fun t => handle t = 1%positive
                           /\ due t <= now (run [Wait 5000] (boot two_items)))
            (timers (run [Wait 5000] (boot two_items)))) as Hd.
  { apply List.Exists_cons_hd. split; [reflexivity|]. vm_compute. discriminate. }
  split; [reflexivity|]. split; [exact two_items_quiet|].
  split; [exact Hv|]. split; [exact Hd|].
  rewrite (proj2 (timer_advances_rotation two_items (boot two_items)
                    [Wait 5000] 1 eq_refl two_items_quiet Hv Hd)).
  reflexivity.
Defined.

Lemma startup_shows_first_witness :
  init two_items = Some (boot two_items)
  /\ delay <$> timers (boot two_items) = [5000].
Proof.
  split; [reflexivity|].
  destruct (startup_shows_first two_items (boot two_items) eq_refl)
    as (_ & _ & _ & -> & _).
  reflexivity.
Defined.

Lemma showIndex_outside_hides_all_witness :
  init two_items = Some (boot two_items)
  /\ Forall (fun it => is_running it = false) two_items
  /\ Forall (targets_entry (length two_items)) []
  /\ (-2 < 0 \/ Z.of_nat (length two_items) <= -2)
  /\ running_count (showIndex (-2) (run [] (boot two_items))).2 = 0%nat.
Proof.
  assert (-2 < 0 \/ Z.of_nat (length two_items) <= -2) as Ho by (left; lia).
  split; [reflexivity|]. split; [exact two_items_quiet|].
  split; [constructor|]. split; [exact Ho|].
  exact (proj1 (proj2 (showIndex_outside_hides_all two_items (boot two_items)
                         [] (-2) eq_refl two_items_quiet (List.Forall_nil _) Ho))).
Defined.
End RotationLawfulCases.
